(** * Bufferize pass of the kernel generator

    A shallow embedding of
    [tensorflow/compiler/mlir/tools/kernel_gen/transforms/bufferize_pass.cc]:
    the two conversion patterns defined in that file, the legality
    configuration assembled by [BufferizePass::runOnOperation] and the
    choice between partial and full conversion.

    The dialect-conversion framework the pass configures (conversion
    target, type converter, pattern rewriter, conversion driver) is not part
    of the file; the parts the development needs are modelled from the
    specification and marked as such. *)

From stdpp Require Import base gmap strings list.

(** ** IR model *)

(** Identity of an operation or block (the C++ pointer). *)
Definition OpId := nat.
Definition BlockId := nat.

(** A dimension size is fixed ([Some n]) or dynamic ([None]). *)
Definition Shape := list (option N).

(** Modelled from the spec: the types of the IR ([mlir::Type], declared in
    mlir/IR/StandardTypes.h): ranked and unranked value arrays (tensors),
    their buffer counterparts (memrefs), and everything else. *)
Inductive Ty :=
| RankedTensorType (elementType : string) (shape : Shape)
| UnrankedTensorType (elementType : string)
| MemRefType (elementType : string) (shape : Shape)
| UnrankedMemRefType (elementType : string)
| OtherType (tag : string).

Global Instance Ty_eq_dec : EqDecision Ty.
Proof. solve_decision. Defined.

(** [t.isa<TensorType>()] *)
Definition isa_TensorType (t : Ty) : bool :=
  match t with
  | RankedTensorType _ _ | UnrankedTensorType _ => true
  | _ => false
  end.

(** [t.isa<UnrankedTensorType>()] *)
Definition isa_UnrankedTensorType (t : Ty) : bool :=
  match t with
  | UnrankedTensorType _ => true
  | _ => false
  end.

(** Modelled from the spec: a value ([mlir::Value]) is a result of its
    defining operation or a block argument, and has one type. *)
Inductive ValueDef :=
| OpResult (owner : OpId) (resultNumber : nat)
| BlockArgument (owner : BlockId) (argNumber : nat).

Global Instance ValueDef_eq_dec : EqDecision ValueDef.
Proof. solve_decision. Defined.

Record Value := mkValue { val_def : ValueDef; val_type : Ty }.

Global Instance Value_eq_dec : EqDecision Value.
Proof. solve_decision. Defined.

(** [Value::getDefiningOp()]: null for a block argument. *)
Definition getDefiningOp (v : Value) : option OpId :=
  match val_def v with
  | OpResult owner _ => Some owner
  | BlockArgument _ _ => None
  end.

(** An operation kind: dialect namespace and mnemonic. *)
Definition OperationName := (string * string)%type.

Definition getDialect (n : OperationName) : string := n.1.

(** [FuncOp::getType()]: declared inputs and results. *)
Record FunctionType := mkFunctionType {
  getInputs : list Ty;
  getResults : list Ty }.

(** Modelled from the spec: an operation ([mlir::Operation]) has a kind,
    operands, results (given by their types) and regions; a region is a
    sequence of blocks, a block a list of typed arguments and a sequence of
    operations.  The function type is the one attribute the pass reads. *)
Inductive Operation := mkOperation {
  op_id : OpId;
  op_name : OperationName;
  op_operands : list Value;
  op_result_types : list Ty;
  op_function_type : option FunctionType;
  op_regions : list Region }
with Region := mkRegion { region_blocks : list Block }
with Block := mkBlock {
  blk_id : BlockId;
  blk_args : list Ty;
  blk_ops : list Operation }.

Definition getOperandTypes (op : Operation) : list Ty :=
  map val_type (op_operands op).

Definition getResultTypes (op : Operation) : list Ty := op_result_types op.

(** The operation kinds the pass names. *)
Definition ModuleOp : OperationName := ("", "module")%string.
Definition ModuleTerminatorOp : OperationName := ("", "module_terminator")%string.
Definition FuncOp : OperationName := ("", "func")%string.
Definition DynamicTensorFromElementsOp : OperationName :=
  ("std", "dynamic_tensor_from_elements")%string.
Definition ExtractElementOp : OperationName := ("std", "extract_element")%string.
Definition TensorFromElementsOp : OperationName :=
  ("std", "tensor_from_elements")%string.
Definition TensorCastOp : OperationName := ("std", "tensor_cast")%string.
Definition TensorLoadOp : OperationName := ("std", "tensor_load")%string.
Definition TensorToMemrefOp : OperationName := ("std", "tensor_to_memref")%string.
Definition ConstantOp : OperationName := ("std", "constant")%string.
Definition SelectOp : OperationName := ("std", "select")%string.
Definition TensorStoreOp : OperationName := ("std", "tensor_store")%string.
Definition CallOp : OperationName := ("std", "call")%string.
Definition DimOp : OperationName := ("std", "dim")%string.
Definition RankOp : OperationName := ("std", "rank")%string.
Definition ReturnOp : OperationName := ("std", "return")%string.

(** The dialect namespaces the pass names. *)
Definition SCFDialect : string := "scf".
Definition StandardOpsDialect : string := "std".
Definition TFFrameworkDialect : string := "tf_framework".
Definition AffineDialect : string := "affine".
Definition ShapeDialect : string := "shape".
Definition LmhloDialect : string := "lmhlo".
Definition MhloDialect : string := "mhlo".

(** Pre-order walk over the operation tree: an operation, then the
    operations nested in its regions. *)
Fixpoint walk (o : Operation) : list Operation :=
  o :: flat_map walkRegion (op_regions o)
with walkRegion (r : Region) : list Operation :=
  flat_map walkBlock (region_blocks r)
with walkBlock (b : Block) : list Operation :=
  flat_map walk (blk_ops b).

(** The operations strictly nested in [o]. *)
Definition nestedOps (o : Operation) : list Operation :=
  flat_map walkRegion (op_regions o).

(** The blocks nested in a region, at any depth. *)
Fixpoint blocksOfOp (o : Operation) : list Block :=
  flat_map blocksOfRegion (op_regions o)
with blocksOfRegion (r : Region) : list Block :=
  flat_map blocksOfBlock (region_blocks r)
with blocksOfBlock (b : Block) : list Block :=
  b :: flat_map blocksOfOp (blk_ops b).

(** An operation without its regions: kind, operands, result types and
    function type, which is what a rewrite of another operation can leave
    verbatim. *)
Definition opHeader (o : Operation) : Operation :=
  mkOperation (op_id o) (op_name o) (op_operands o) (op_result_types o)
              (op_function_type o) [].

(** The operation nested in the module with identity [id]. *)
Definition lookupOp (id : OpId) (root : Operation) : option Operation :=
  find (fun o => bool_decide (op_id o = id)) (nestedOps root).

(** Graph-wide rewiring of operands. *)
Fixpoint mapOperands (f : Value -> Value) (o : Operation) : Operation :=
  mkOperation (op_id o) (op_name o) (map f (op_operands o))
              (op_result_types o) (op_function_type o)
              (map (mapOperandsRegion f) (op_regions o))
with mapOperandsRegion (f : Value -> Value) (r : Region) : Region :=
  mkRegion (map (mapOperandsBlock f) (region_blocks r))
with mapOperandsBlock (f : Value -> Value) (b : Block) : Block :=
  mkBlock (blk_id b) (blk_args b) (map (mapOperands f) (blk_ops b)).

(** Removal of the operations rejected by [keep], with everything nested in
    them, from every block below [o]. *)
Fixpoint eraseOps (keep : OpId -> bool) (o : Operation) : Operation :=
  mkOperation (op_id o) (op_name o) (op_operands o)
              (op_result_types o) (op_function_type o)
              (map (eraseOpsRegion keep) (op_regions o))
with eraseOpsRegion (keep : OpId -> bool) (r : Region) : Region :=
  mkRegion (map (eraseOpsBlock keep) (region_blocks r))
with eraseOpsBlock (keep : OpId -> bool) (b : Block) : Block :=
  mkBlock (blk_id b) (blk_args b)
          (List.filter (fun o => keep (op_id o))
                       (map (eraseOps keep) (blk_ops b))).

(** Insertion of [new] right before the operation [anchor]. *)
Fixpoint insertBefore (anchor : OpId) (new : Operation) (o : Operation)
  : Operation :=
  mkOperation (op_id o) (op_name o) (op_operands o)
              (op_result_types o) (op_function_type o)
              (map (insertBeforeRegion anchor new) (op_regions o))
with insertBeforeRegion (anchor : OpId) (new : Operation) (r : Region)
  : Region :=
  mkRegion (map (insertBeforeBlock anchor new) (region_blocks r))
with insertBeforeBlock (anchor : OpId) (new : Operation) (b : Block) : Block :=
  mkBlock (blk_id b) (blk_args b)
          (flat_map (fun o => if bool_decide (op_id o = anchor)
                              then [new; o] else [o])
                    (map (insertBefore anchor new) (blk_ops b))).

(** The walk that skips the operations rejected by [keep] together with
    their nested operations; the root itself is always listed. *)
Fixpoint walkKept (keep : OpId -> bool) (o : Operation) : list Operation :=
  o :: flat_map (walkKeptRegion keep) (op_regions o)
with walkKeptRegion (keep : OpId -> bool) (r : Region) : list Operation :=
  flat_map (walkKeptBlock keep) (region_blocks r)
with walkKeptBlock (keep : OpId -> bool) (b : Block) : list Operation :=
  flat_map (fun o => if keep (op_id o) then walkKept keep o else [])
           (blk_ops b).

(** ** Type converter *)

(** Modelled from the spec: the type converter of the conversion framework
    ([TypeConverter], declared in mlir/Transforms/DialectConversion.h and
    not part of this file): a total mapping on types, and the kind of the
    cast-like operation its materialization hook inserts to produce a value
    of a given target type. *)
Record TypeConverter := mkTypeConverter {
  convertType : Ty -> Ty;
  materializationKind : Ty -> OperationName }.

(** Modelled from the spec: [isLegal(typeList)] holds iff every type is
    unchanged by one pass through [convertType]. *)
Definition isLegalTypes (converter : TypeConverter) (ts : list Ty) : bool :=
  forallb (fun t => bool_decide (convertType converter t = t)) ts.

(** The types that appear in an operation: operand and result types. *)
Definition typesOfOp (o : Operation) : list Ty :=
  getOperandTypes o ++ getResultTypes o.

(** Modelled from the spec: [isLegal(&region)], absent from this file, is
    read as the spec words it: every type appearing inside the body (block
    argument types, operand and result types of every nested operation) is
    in target form. *)
Definition isLegalRegion (converter : TypeConverter) (r : Region) : bool :=
  isLegalTypes converter (flat_map blk_args (blocksOfRegion r)) &&
  isLegalTypes converter (flat_map typesOfOp (walkRegion r)).

(** Modelled from the spec: [BufferizeTypeConverter]
    (mlir/Transforms/Bufferize.h) maps a ranked or unranked tensor type to
    the buffer type with the same element type and shape and is the
    identity elsewhere; its materializations are the two bridging casts. *)
Definition BufferizeTypeConverter : TypeConverter :=
  {| convertType t :=
       match t with
       | RankedTensorType e s => MemRefType e s
       | UnrankedTensorType e => UnrankedMemRefType e
       | _ => t
       end;
     materializationKind target :=
       if isa_TensorType target then TensorLoadOp else TensorToMemrefOp |}.

(** ** Conversion target *)

Inductive LegalizationAction := Legal | Illegal | Unknown.

Global Instance LegalizationAction_eq_dec : EqDecision LegalizationAction.
Proof. solve_decision. Defined.

(** Modelled from the spec: the conversion target ([ConversionTarget],
    mlir/Transforms/DialectConversion.h) is a mapping from operation kind to
    a dynamic legality predicate, plus the kinds and dialects marked
    unconditionally legal or illegal. *)
Record ConversionTarget := mkConversionTarget {
  dynamicRules : gmap OperationName (Operation -> bool);
  illegalOps : gset OperationName;
  illegalDialects : gset string;
  legalOps : gset OperationName;
  legalDialects : gset string }.

(** Modelled from the spec: [ConversionTarget target(context)], a target
    without any rule. *)
Definition emptyTarget : ConversionTarget :=
  mkConversionTarget ∅ ∅ ∅ ∅ ∅.

(** Modelled from the spec: [target.addLegalDialect<...>()] marks dialects
    unconditionally legal. *)
Definition addLegalDialect (ds : list string) (t : ConversionTarget)
  : ConversionTarget :=
  mkConversionTarget (dynamicRules t) (illegalOps t) (illegalDialects t)
                     (legalOps t) (list_to_set ds ∪ legalDialects t).

(** Modelled from the spec: [target.addLegalOp<...>()] marks kinds
    unconditionally legal. *)
Definition addLegalOp (ks : list OperationName) (t : ConversionTarget)
  : ConversionTarget :=
  mkConversionTarget (dynamicRules t) (illegalOps t) (illegalDialects t)
                     (list_to_set ks ∪ legalOps t) (legalDialects t).

(** Modelled from the spec: [target.addIllegalDialect<...>()] marks
    dialects unconditionally illegal. *)
Definition addIllegalDialect (ds : list string) (t : ConversionTarget)
  : ConversionTarget :=
  mkConversionTarget (dynamicRules t) (illegalOps t)
                     (list_to_set ds ∪ illegalDialects t)
                     (legalOps t) (legalDialects t).

(** Modelled from the spec: [target.addIllegalOp<...>()] marks kinds
    unconditionally illegal. *)
Definition addIllegalOp (ks : list OperationName) (t : ConversionTarget)
  : ConversionTarget :=
  mkConversionTarget (dynamicRules t) (list_to_set ks ∪ illegalOps t)
                     (illegalDialects t) (legalOps t) (legalDialects t).

(** Modelled from the spec: [target.addDynamicallyLegalOp<...>(callback)].
    The target maps a kind to its rule, so registering a predicate for a
    kind replaces the predicate the mapping held for that kind. *)
Definition addDynamicallyLegalOp (ks : list OperationName)
    (callback : Operation -> bool) (t : ConversionTarget) : ConversionTarget :=
  mkConversionTarget
    (foldr (fun k rules => <[k := callback]> rules) (dynamicRules t) ks)
    (illegalOps t) (illegalDialects t) (legalOps t) (legalDialects t).

(** Modelled from the spec: classification of an operation, most specific
    rule first: the dynamic predicate of its kind, then an illegal kind or
    dialect, then a legal kind or dialect, otherwise unknown. *)
Definition isLegal (t : ConversionTarget) (op : Operation)
  : LegalizationAction :=
  match (dynamicRules t !! op_name op : option (Operation -> bool)) with
  | Some callback => if callback op then Legal else Illegal
  | None =>
      if bool_decide (op_name op ∈ illegalOps t) ||
         bool_decide (getDialect (op_name op) ∈ illegalDialects t)
      then Illegal
      else if bool_decide (op_name op ∈ legalOps t) ||
              bool_decide (getDialect (op_name op) ∈ legalDialects t)
      then Legal
      else Unknown
  end.

(** ** Pattern rewriter *)

Inductive LogicalResult := success | failure.

Definition failed (r : LogicalResult) : bool :=
  match r with failure => true | success => false end.

(** What a piece of C++ can do: finish, run into undefined behaviour (a
    null or dangling dereference, a violated assertion), or, in the model
    only, exhaust the sweep budget of the driver. *)
Inductive Outcome (A : Type) : Type :=
| Done (a : A)
| Undefined
| OutOfFuel.
Arguments Done {A} a.
Arguments Undefined {A}.
Arguments OutOfFuel {A}.

(** A rewriter action threads the module being rewritten. *)
Definition Rewriter (A : Type) : Type := Operation -> Outcome (A * Operation).

Global Instance Rewriter_ret : MRet Rewriter :=
  fun (A : Type) (a : A) (root : Operation) => Done (a, root).

Global Instance Rewriter_bind : MBind Rewriter :=
  fun (A B : Type) (k : A -> Rewriter B) (m : Rewriter A) (root : Operation) =>
    match m root with
    | Done (a, root') => k a root'
    | Undefined => Undefined
    | OutOfFuel => OutOfFuel
    end.

Definition undefined {A} : Rewriter A := fun _ => Undefined.

(** Modelled from the spec: [op->getOperand(i)], the accessor behind
    [op.tensor()] and [op.memref()]; an operation has the operands of its
    kind, and an access out of range is outside the contract. *)
Definition getOperand (op : Operation) (i : nat) : Rewriter Value :=
  match op_operands op !! i with
  | Some v => mret v
  | None => undefined
  end.

(** Modelled from the spec: the value that takes the place of [v] when the
    results of [id] are replaced, position by position, by [newValues]. *)
Definition substResult (id : OpId) (newValues : list Value) (v : Value)
  : Value :=
  match val_def v with
  | OpResult owner i =>
      if bool_decide (owner = id) then default v (newValues !! i) else v
  | BlockArgument _ _ => v
  end.

(** Modelled from the spec: [ConversionPatternRewriter::replaceOp]
    (mlir/Transforms/DialectConversion.h) rewires every use of the results
    of [op], graph-wide, to [newValues] and destroys [op].  A null [op], an
    [op] that is no longer in the module and a replacement list whose
    length differs from the number of results are outside its contract. *)
Definition replaceOp (op : option OpId) (newValues : list Value)
  : Rewriter unit :=
  fun root =>
    match op with
    | None => Undefined
    | Some id =>
        match lookupOp id root with
        | None => Undefined
        | Some o =>
            if bool_decide (length newValues = length (op_result_types o))
            then Done (tt, eraseOps (fun i => bool_decide (i ≠ id))
                                    (mapOperands (substResult id newValues) root))
            else Undefined
        end
    end.

(** The identity of a newly created operation. *)
Definition freshId (root : Operation) : OpId :=
  S (foldr Nat.max 0 (map op_id (walk root))).

(** Modelled from the spec: creation of an operation through the rewriter,
    at the insertion point, which is right before the operation being
    converted. *)
Definition createOp (anchor : OpId) (name : OperationName)
    (operands : list Value) (resultTypes : list Ty) : Rewriter Operation :=
  fun root =>
    match lookupOp anchor root with
    | None => Undefined
    | Some _ =>
        let new := mkOperation (freshId root) name operands resultTypes
                               None [] in
        Done (new, insertBefore anchor new root)
    end.

(** [op->getResults()] *)
Definition getOpResults (o : Operation) : list Value :=
  imap (fun i t => mkValue (OpResult (op_id o) i) t) (op_result_types o).

(** Modelled from the spec: [rewriter.replaceOpWithNewOp<OpTy>(op, ...)]
    creates the new operation and replaces [op] by its results. *)
Definition replaceOpWithNewOp (op : Operation) (name : OperationName)
    (operands : list Value) (resultTypes : list Ty) : Rewriter unit :=
  new ← createOp (op_id op) name operands resultTypes;
  replaceOp (Some (op_id op)) (getOpResults new).

(** ** The conversion patterns of the pass *)

(** Modelled from the spec: a registered pattern ([OpConversionPattern])
    is the kind it is rooted at, its benefit, the type converter handed to
    its constructor if any, and its rewrite. *)
Record ConversionPattern := mkConversionPattern {
  pat_kind : OperationName;
  pat_benefit : nat;
  pat_converter : option TypeConverter;
  pat_matchAndRewrite : Operation -> list Value -> Rewriter LogicalResult }.

Module UnrankedTensorStoreTestOnlyPattern.

(** [op.tensor()] of a [TensorStoreOp]: its first operand. *)
Definition tensor (op : Operation) : Rewriter Value := getOperand op 0.

(** [op.memref()] of a [TensorStoreOp]: its second operand. *)
Definition memref (op : Operation) : Rewriter Value := getOperand op 1.

(** Lines 64-70: the result of the operation defining the destination is
    replaced by the stored tensor, the store by nothing; [operands] is not
    consulted. *)
Definition matchAndRewrite (op : Operation) (operands : list Value)
  : Rewriter LogicalResult :=
  dst ← memref op;
  src ← tensor op;
  replaceOp (getDefiningOp dst) [src];;
  replaceOp (Some (op_id op)) [];;
  mret success.

(** [patterns.insert<UnrankedTensorStoreTestOnlyPattern>(&context)] *)
Definition pattern : ConversionPattern :=
  mkConversionPattern TensorStoreOp 1 None matchAndRewrite.

End UnrankedTensorStoreTestOnlyPattern.

Module ReturnOpTypeConversionPattern.

(** Lines 81-86: the return is rebuilt over the operands it is given. *)
Definition matchAndRewrite (op : Operation) (operands : list Value)
  : Rewriter LogicalResult :=
  replaceOpWithNewOp op ReturnOp operands [];;
  mret success.

(** [patterns.insert<ReturnOpTypeConversionPattern>(converter, &context)] *)
Definition pattern (converter : TypeConverter) : ConversionPattern :=
  mkConversionPattern ReturnOp 1 (Some converter) matchAndRewrite.

End ReturnOpTypeConversionPattern.

(** ** Conversion driver *)

(** [OwningRewritePatternList]: the patterns in registration order. *)
Definition OwningRewritePatternList := list ConversionPattern.

(** Modelled from the spec: patterns are tried in decreasing benefit order,
    ties broken by registration order. *)
Fixpoint insertByBenefit (p : ConversionPattern)
    (ps : list ConversionPattern) : list ConversionPattern :=
  match ps with
  | [] => [p]
  | q :: qs =>
      if pat_benefit q <=? pat_benefit p
      then p :: q :: qs
      else q :: insertByBenefit p qs
  end.

Definition orderByBenefit (ps : OwningRewritePatternList)
  : list ConversionPattern :=
  foldr insertByBenefit [] ps.

(** Modelled from the spec: [materializeCast(targetType, value)] inserts an
    explicit cast-like operation and yields its result. *)
Definition materializeCast (converter : TypeConverter) (anchor : OpId)
    (target : Ty) (v : Value) : Rewriter Value :=
  cast ← createOp anchor (materializationKind converter target) [v] [target];
  mret (mkValue (OpResult (op_id cast) 0) target).

(** Modelled from the spec: the operands are presented to a pattern in
    converted form; a materialization is inserted where the pattern expects,
    through the converter it was built with, a type the operand does not
    have yet. *)
Fixpoint remapValues (converter : option TypeConverter) (anchor : OpId)
    (vs : list Value) : Rewriter (list Value) :=
  match vs with
  | [] => mret []
  | v :: rest =>
      v' ← match converter with
           | None => mret v
           | Some c =>
               if bool_decide (convertType c (val_type v) = val_type v)
               then mret v
               else materializeCast c anchor (convertType c (val_type v)) v
           end;
      rest' ← remapValues converter anchor rest;
      mret (v' :: rest')
  end.

(** Modelled from the spec: one attempt of one pattern on [op]; a pattern
    rooted at another kind does not match. *)
Definition legalizeWithPattern (p : ConversionPattern) (op : Operation)
  : Rewriter LogicalResult :=
  if bool_decide (pat_kind p = op_name op)
  then operands ← remapValues (pat_converter p) (op_id op) (op_operands op);
       pat_matchAndRewrite p op operands
  else mret failure.

(** Modelled from the spec: each attempt runs in a transactional scope; a
    successful rewrite is committed, a failed one leaves the module as it was
    and the next pattern is tried.  The flag tells whether a rewrite was
    committed. *)
Fixpoint legalizePatterns (ps : list ConversionPattern) (op : Operation)
  : Rewriter bool :=
  fun root =>
    match ps with
    | [] => Done (false, root)
    | p :: rest =>
        match legalizeWithPattern p op root with
        | Done (success, root') => Done (true, root')
        | Done (failure, _) => legalizePatterns rest op root
        | Undefined => Undefined
        | OutOfFuel => OutOfFuel
        end
    end.

(** The operation of the module, the root included, with identity [id]. *)
Definition findOp (id : OpId) (root : Operation) : option Operation :=
  find (fun o => bool_decide (op_id o = id)) (walk root).

(** Modelled from the spec: steps 1 and 2 of the driver for the worklist
    entry [id]: a legal operation is left unchanged, any other one is handed
    to the patterns.  An entry whose operation was destroyed earlier in the
    sweep is dropped. *)
Definition legalizeOp (target : ConversionTarget)
    (ps : list ConversionPattern) (id : OpId) : Rewriter bool :=
  fun root =>
    match findOp id root with
    | None => Done (false, root)
    | Some op =>
        match isLegal target op with
        | Legal => Done (false, root)
        | Illegal | Unknown => legalizePatterns ps op root
        end
    end.

(** Modelled from the spec: one pass over the worklist; the flag tells
    whether an operation changed state. *)
Fixpoint sweep (target : ConversionTarget) (ps : list ConversionPattern)
    (worklist : list OpId) : Rewriter bool :=
  match worklist with
  | [] => mret false
  | id :: rest =>
      changed ← legalizeOp target ps id;
      changed' ← sweep target ps rest;
      mret (changed || changed')
  end.

(** Modelled from the spec: the worklist is seeded with every operation of
    the module in pre-order and swept until a full pass changes nothing.
    [fuel] bounds the number of sweeps. *)
Fixpoint legalizeToFixpoint (fuel : nat) (target : ConversionTarget)
    (ps : list ConversionPattern) : Rewriter unit :=
  fun root =>
    match fuel with
    | 0 => OutOfFuel
    | S fuel' =>
        match sweep target ps (map op_id (walk root)) root with
        | Done (true, root') => legalizeToFixpoint fuel' target ps root'
        | Done (false, root') => Done (tt, root')
        | Undefined => Undefined
        | OutOfFuel => OutOfFuel
        end
    end.

(** Modelled from the spec: partial mode stops at the fixpoint and reports
    success whatever remains illegal. *)
Definition applyPartialConversion (fuel : nat) (module : Operation)
    (target : ConversionTarget) (patterns : OwningRewritePatternList)
  : Outcome (LogicalResult * Operation) :=
  match legalizeToFixpoint fuel target (orderByBenefit patterns) module with
  | Done (_, module') => Done (success, module')
  | Undefined => Undefined
  | OutOfFuel => OutOfFuel
  end.

(** Modelled from the spec: no operation of the module is classified
    illegal or unknown. *)
Definition allLegal (target : ConversionTarget) (module : Operation) : bool :=
  forallb (fun o => bool_decide (isLegal target o = Legal)) (walk module).

(** Modelled from the spec: full mode reports failure when an operation is
    still illegal or unknown at the fixpoint, and hands back the module as
    rewritten so far. *)
Definition applyFullConversion (fuel : nat) (module : Operation)
    (target : ConversionTarget) (patterns : OwningRewritePatternList)
  : Outcome (LogicalResult * Operation) :=
  match legalizeToFixpoint fuel target (orderByBenefit patterns) module with
  | Done (_, module') =>
      Done (if allLegal target module' then success else failure, module')
  | Undefined => Undefined
  | OutOfFuel => OutOfFuel
  end.

(** ** The pass *)

(** [llvm::none_of] *)
Definition none_of {A} (xs : list A) (p : A -> bool) : bool :=
  negb (existsb p xs).

(** Typed accessors of the operation classes the legality callbacks use.
    The fallbacks stand for accesses a verified operation of the class never
    makes. *)
Definition TensorStoreOp_tensorType (op : Operation) : option Ty :=
  val_type <$> op_operands op !! 0.

Definition FuncOp_getType (op : Operation) : FunctionType :=
  default (mkFunctionType [] []) (op_function_type op).

Definition FuncOp_getBody (op : Operation) : Region :=
  default (mkRegion []) (op_regions op !! 0).

(** The state of a pass run: the module as left by the pass, and whether
    [signalPassFailure] was called. *)
Record PassResult := mkPassResult {
  pass_failed : bool;
  pass_module : Operation }.

(** [if (failed(conversion)) signalPassFailure();] *)
Definition signalPassFailureIfFailed
    (conversion : Outcome (LogicalResult * Operation)) : Outcome PassResult :=
  match conversion with
  | Done (result, module') => Done (mkPassResult (failed result) module')
  | Undefined => Undefined
  | OutOfFuel => OutOfFuel
  end.

(** The signature of [applyPartialConversion] and [applyFullConversion]. *)
Definition Driver : Type :=
  Operation -> ConversionTarget -> OwningRewritePatternList ->
  Outcome (LogicalResult * Operation).

Section BufferizePass.

(** The pattern catalogs and legality contributions of other files. *)
Variable populateHLOToLHLOConversionPattern :
  TypeConverter -> OwningRewritePatternList -> OwningRewritePatternList.
Variable populateFuncOpTypeConversionPattern :
  TypeConverter -> OwningRewritePatternList -> OwningRewritePatternList.
Variable populateCallOpTypeConversionPattern :
  TypeConverter -> OwningRewritePatternList -> OwningRewritePatternList.
Variable populateStdBufferizePatterns :
  TypeConverter -> OwningRewritePatternList -> OwningRewritePatternList.
Variable populateEliminateBufferizeMaterializationsPatterns :
  TypeConverter -> OwningRewritePatternList -> OwningRewritePatternList.
Variable populateExtraStdBufferizePattern :
  TypeConverter -> OwningRewritePatternList -> OwningRewritePatternList.
Variable populateShapeStructuralTypeConversionsAndLegality :
  TypeConverter -> OwningRewritePatternList -> ConversionTarget ->
  OwningRewritePatternList * ConversionTarget.
Variable populateSCFStructuralTypeConversionsAndLegality :
  TypeConverter -> OwningRewritePatternList -> ConversionTarget ->
  OwningRewritePatternList * ConversionTarget.

Definition typesAreLegal (converter : TypeConverter) (op : Operation)
  : bool :=
  isLegalTypes converter (getOperandTypes op) &&
  isLegalTypes converter (getResultTypes op).

(** Lines 106-142 of [runOnOperation]: the legality configuration. *)
Definition configureTarget (allow_partial_bufferization_ : bool)
    (converter : TypeConverter) : ConversionTarget :=
  let target := emptyTarget in
  let target :=
    addLegalDialect [SCFDialect; StandardOpsDialect; TFFrameworkDialect;
                     AffineDialect; ShapeDialect; LmhloDialect] target in
  let target := addLegalOp [ModuleOp; ModuleTerminatorOp] target in
  let target := addIllegalDialect [MhloDialect] target in
  let target :=
    addIllegalOp [DynamicTensorFromElementsOp; ExtractElementOp;
                  TensorFromElementsOp; TensorCastOp] target in
  let target :=
    if negb allow_partial_bufferization_
    then addIllegalOp [TensorLoadOp; TensorToMemrefOp] target
    else target in
  let target :=
    addDynamicallyLegalOp [ConstantOp; SelectOp]
      (fun op => none_of (getResultTypes op) isa_TensorType) target in
  let target :=
    addDynamicallyLegalOp [TensorStoreOp]
      (fun op => negb (default true
                         (isa_UnrankedTensorType <$>
                            TensorStoreOp_tensorType op))) target in
  let target :=
    addDynamicallyLegalOp [FuncOp]
      (fun op =>
         let inputs := getInputs (FuncOp_getType op) in
         let results := getResults (FuncOp_getType op) in
         isLegalTypes converter inputs && isLegalTypes converter results &&
         isLegalRegion converter (FuncOp_getBody op)) target in
  addDynamicallyLegalOp
    [CallOp; ConstantOp; DimOp; RankOp; SelectOp; ReturnOp]
    (typesAreLegal converter) target.

(** Lines 144-157: the pattern list, and the target after the shape and
    SCF contributions. *)
Definition configurePatterns (converter : TypeConverter)
    (target : ConversionTarget)
  : OwningRewritePatternList * ConversionTarget :=
  let patterns : OwningRewritePatternList := [] in
  let patterns := populateHLOToLHLOConversionPattern converter patterns in
  let patterns := populateFuncOpTypeConversionPattern converter patterns in
  let patterns := populateCallOpTypeConversionPattern converter patterns in
  let patterns := populateStdBufferizePatterns converter patterns in
  let patterns :=
    populateEliminateBufferizeMaterializationsPatterns converter patterns in
  let patterns := populateExtraStdBufferizePattern converter patterns in
  let '(patterns, target) :=
    populateShapeStructuralTypeConversionsAndLegality
      converter patterns target in
  let '(patterns, target) :=
    populateSCFStructuralTypeConversionsAndLegality
      converter patterns target in
  let patterns := patterns ++ [UnrankedTensorStoreTestOnlyPattern.pattern] in
  let patterns :=
    patterns ++ [ReturnOpTypeConversionPattern.pattern converter] in
  (patterns, target).

Definition passTarget (allow_partial_bufferization_ : bool)
  : ConversionTarget :=
  (configurePatterns BufferizeTypeConverter
     (configureTarget allow_partial_bufferization_
                      BufferizeTypeConverter)).2.

Definition passPatterns (allow_partial_bufferization_ : bool)
  : OwningRewritePatternList :=
  (configurePatterns BufferizeTypeConverter
     (configureTarget allow_partial_bufferization_
                      BufferizeTypeConverter)).1.

Section Drivers.

(** The two entry points of the conversion driver the pass calls. *)
Variable partialConversion : Driver.
Variable fullConversion : Driver.

(** Lines 159-169: the conversion in the mode asked for;
    [signalPassFailure] is called when the driver reports failure. *)
Definition runOnOperation (allow_partial_bufferization_ : bool)
    (module : Operation) : Outcome PassResult :=
  let converter := BufferizeTypeConverter in
  let target := configureTarget allow_partial_bufferization_ converter in
  let '(patterns, target) := configurePatterns converter target in
  if allow_partial_bufferization_
  then signalPassFailureIfFailed (partialConversion module target patterns)
  else signalPassFailureIfFailed (fullConversion module target patterns).

End Drivers.

(** The pass on top of the driver modelled above, with a budget of
    [fuel] sweeps. *)
Definition runPass (fuel : nat) (allow_partial_bufferization_ : bool)
    (module : Operation) : Outcome PassResult :=
  runOnOperation (applyPartialConversion fuel) (applyFullConversion fuel)
                 allow_partial_bufferization_ module.

End BufferizePass.

(** ** Structural induction over the operation tree *)

Section OperationInduction.

Variable P : Operation -> Prop.

Hypothesis step : forall o,
  Forall (fun r => Forall (fun b => Forall P (blk_ops b)) (region_blocks r))
         (op_regions o) ->
  P o.

Fixpoint Operation_tree_ind (o : Operation) : P o :=
  step o
    ((fix regions_ind (rs : list Region) :=
        match rs return
          Forall (fun r => Forall (fun b => Forall P (blk_ops b))
                                  (region_blocks r)) rs
        with
        | [] => @List.Forall_nil _ _
        | r :: rs' =>
            @List.Forall_cons _ _ r rs'
              ((fix blocks_ind (bs : list Block) :=
                  match bs return
                    Forall (fun b => Forall P (blk_ops b)) bs
                  with
                  | [] => @List.Forall_nil _ _
                  | b :: bs' =>
                      @List.Forall_cons _ _ b bs'
                        ((fix ops_ind (os : list Operation) :=
                            match os return Forall P os with
                            | [] => @List.Forall_nil _ _
                            | o' :: os' =>
                                @List.Forall_cons _ _ o' os'
                                  (Operation_tree_ind o') (ops_ind os')
                            end) (blk_ops b))
                        (blocks_ind bs')
                  end) (region_blocks r))
              (regions_ind rs')
        end) (op_regions o)).

End OperationInduction.


(** ** Derived notions used in the statements *)

(** The module once the results of [dst] are rewired to [src] and the
    operations [dst] and [store] are gone. *)
Definition storeErased (dst store : OpId) (src : Value) (root : Operation)
  : Operation :=
  eraseOps (fun i => bool_decide (i ≠ dst) && bool_decide (i ≠ store))
           (mapOperands (substResult dst [src]) root).

(** Replacement of the uses of one value. *)
Definition replaceUse (from : ValueDef) (to : Value) (v : Value) : Value :=
  if bool_decide (val_def v = from) then to else v.

(** [o] is still in the module, with the same kind, operands, result types
    and function type. *)
Definition remainsVerbatim (o root : Operation) : Prop :=
  In (opHeader o) (map opHeader (walk root)).

(** ** A sample module

    [func @f(%arg0: tensor<*xf32>, %arg1: memref<*xf32>)] whose body calls
    [@g] on the tensor to obtain an unranked buffer, stores the tensor into
    it, queries a dimension of the buffer and returns the tensor. *)
Module Sample.

Definition tensor_f32 : Ty := UnrankedTensorType "f32".
Definition memref_f32 : Ty := UnrankedMemRefType "f32".
Definition index : Ty := OtherType "index".

Definition arg0 : Value := mkValue (BlockArgument 1 0) tensor_f32.
Definition arg1 : Value := mkValue (BlockArgument 1 1) memref_f32.
Definition buf : Value := mkValue (OpResult 2 0) memref_f32.

Definition call : Operation :=
  mkOperation 2 CallOp [arg0] [memref_f32] None [].
Definition store : Operation :=
  mkOperation 3 TensorStoreOp [arg0; buf] [] None [].
Definition dim : Operation :=
  mkOperation 4 DimOp [buf] [index] None [].
Definition ret : Operation :=
  mkOperation 5 ReturnOp [arg0] [] None [].

Definition body : Region :=
  mkRegion [mkBlock 1 [tensor_f32; memref_f32] [call; store; dim; ret]].

Definition func : Operation :=
  mkOperation 1 FuncOp [] []
              (Some (mkFunctionType [tensor_f32; memref_f32] [tensor_f32]))
              [body].

Definition terminator : Operation :=
  mkOperation 6 ModuleTerminatorOp [] [] None [].

Definition module : Operation :=
  mkOperation 0 ModuleOp [] [] None
              [mkRegion [mkBlock 0 [] [func; terminator]]].

(** A store whose destination is the block argument [%arg1]. *)
Definition storeToArgument : Operation :=
  mkOperation 3 TensorStoreOp [arg0; arg1] [] None [].

(** A module that is legal as it stands: a function over buffers. *)
Definition legalFunc : Operation :=
  mkOperation 1 FuncOp [] [] (Some (mkFunctionType [memref_f32] []))
    [mkRegion [mkBlock 1 [memref_f32]
       [mkOperation 2 DimOp [mkValue (BlockArgument 1 0) memref_f32]
                    [index] None [];
        mkOperation 3 ReturnOp [] [] None []]]].

Definition legalModule : Operation :=
  mkOperation 0 ModuleOp [] [] None
              [mkRegion [mkBlock 0 [] [legalFunc; terminator]]].

(** Scalar and tensor constants, and a scalar select. *)
Definition scalarConstant : Operation :=
  mkOperation 7 ConstantOp [] [OtherType "f32"] None [].
Definition tensorConstant : Operation :=
  mkOperation 7 ConstantOp [] [RankedTensorType "f32" [Some 4%N]] None [].
Definition scalarSelect : Operation :=
  mkOperation 8 SelectOp
    [mkValue (BlockArgument 1 0) (OtherType "i1");
     mkValue (BlockArgument 1 1) (OtherType "f32");
     mkValue (BlockArgument 1 2) (OtherType "f32")]
    [OtherType "f32"] None [].

(** A bridging cast of the buffer argument. *)
Definition load : Operation :=
  mkOperation 9 TensorLoadOp [arg1] [tensor_f32] None [].

(** The sample module after the store erasure, after the rewrite of the
    return, and after both. *)
Definition afterStore : Operation := storeErased 2 3 arg0 module.

Definition returnRewritten (root : Operation) : Operation :=
  match legalizeWithPattern
          (ReturnOpTypeConversionPattern.pattern BufferizeTypeConverter)
          ret root
  with
  | Done (_, root') => root'
  | _ => root
  end.

Definition reachable : list Operation :=
  [module; afterStore; returnRewritten module; returnRewritten afterStore].

(** The rewrites still to come: the tensor stores, and the returns whose
    operand types are not converted. *)
Definition pending (root : Operation) : nat :=
  length (List.filter
            (fun o => bool_decide (op_name o = TensorStoreOp) ||
                      bool_decide (op_name o = ReturnOp) &&
                      negb (typesAreLegal BufferizeTypeConverter o))
            (walk root)).

(** The same function with the tensor stored into the buffer argument. *)
Definition moduleStoringToArgument : Operation :=
  mkOperation 0 ModuleOp [] [] None
    [mkRegion [mkBlock 0 []
       [mkOperation 1 FuncOp [] []
          (Some (mkFunctionType [tensor_f32; memref_f32] [tensor_f32]))
          [mkRegion [mkBlock 1 [tensor_f32; memref_f32]
                       [storeToArgument; ret]]];
        terminator]]].

(** Collaborators that contribute nothing. *)
Definition noPatterns (converter : TypeConverter)
    (patterns : OwningRewritePatternList) : OwningRewritePatternList :=
  patterns.

Definition noLegality (converter : TypeConverter)
    (patterns : OwningRewritePatternList) (target : ConversionTarget)
  : OwningRewritePatternList * ConversionTarget :=
  (patterns, target).

(** Legality contributions of the expected kind: each registers a dynamic
    rule for structural operations of its own dialect. *)
Definition shapeLegality (converter : TypeConverter)
    (patterns : OwningRewritePatternList) (target : ConversionTarget)
  : OwningRewritePatternList * ConversionTarget :=
  (patterns,
   addDynamicallyLegalOp
     [("shape", "assuming"); ("shape", "assuming_yield")]%string
     (typesAreLegal converter) target).

Definition scfLegality (converter : TypeConverter)
    (patterns : OwningRewritePatternList) (target : ConversionTarget)
  : OwningRewritePatternList * ConversionTarget :=
  (patterns,
   addDynamicallyLegalOp
     [("scf", "for"); ("scf", "if"); ("scf", "yield")]%string
     (typesAreLegal converter) target).

End Sample.

(** ** Proof automation for the registrations of the target *)

Ltac unfold_kinds :=
  unfold ModuleOp, ModuleTerminatorOp, FuncOp, DynamicTensorFromElementsOp,
    ExtractElementOp, TensorFromElementsOp, TensorCastOp, TensorLoadOp,
    TensorToMemrefOp, ConstantOp, SelectOp, TensorStoreOp, CallOp, DimOp,
    RankOp, ReturnOp in *.

Ltac lookup_rule :=
  unfold configureTarget, addDynamicallyLegalOp;
  match goal with |- context [negb ?b] => destruct b end;
  cbn [foldr dynamicRules]; unfold_kinds; by simplify_map_eq.


(** ** The rest of the pass *)

(** [DialectRegistry] (mlir/IR/Dialect.h), kept as the set of the dialect
    namespaces it holds; [registry.insert<...>()] adds to it. *)
Definition DialectRegistry : Type := gset string.

Definition registryInsert (ds : list string) (registry : DialectRegistry)
  : DialectRegistry :=
  list_to_set ds ∪ registry.

(** Lines 98-101: the dialects the pass may create operations of. *)
Definition getDependentDialects (registry : DialectRegistry)
  : DialectRegistry :=
  registryInsert [AffineDialect; SCFDialect; ShapeDialect;
                  TFFrameworkDialect; LmhloDialect] registry.

(** Lines 92-95: the pass object holds the mode flag. *)
Record BufferizePass := mkBufferizePass {
  pass_allow_partial_bufferization : bool }.

(** Lines 175-178. *)
Definition CreateBufferizePass (allow_partial_bufferization : bool)
  : BufferizePass :=
  mkBufferizePass allow_partial_bufferization.

(** The kinds for which [runOnOperation] registers a dynamic predicate. *)
Definition dynamicKinds : list OperationName :=
  [ConstantOp; SelectOp; TensorStoreOp; FuncOp; CallOp; DimOp; RankOp;
   ReturnOp].

(** The kinds registered by lines 141-142. *)
Definition typeCheckedKinds : list OperationName :=
  [CallOp; ConstantOp; DimOp; RankOp; SelectOp; ReturnOp].

(** The kinds registered illegal in either mode (lines 113-114). *)
Definition alwaysIllegalKinds : list OperationName :=
  [DynamicTensorFromElementsOp; ExtractElementOp; TensorFromElementsOp;
   TensorCastOp].

(** The kinds registered illegal in full mode only (line 117). *)
Definition bridgingKinds : list OperationName :=
  [TensorLoadOp; TensorToMemrefOp].

(** The dialects registered legal (lines 107-109). *)
Definition legalDialectNames : list string :=
  [SCFDialect; StandardOpsDialect; TFFrameworkDialect; AffineDialect;
   ShapeDialect; LmhloDialect].

(** The pre-order listing of a module in which every nested operation with
    identity [id] has given way, with what is nested in it, to [new]. *)
Fixpoint walkReplaced (id : OpId) (new : Operation) (o : Operation)
  : list Operation :=
  o :: flat_map (walkReplacedRegion id new) (op_regions o)
with walkReplacedRegion (id : OpId) (new : Operation) (r : Region)
  : list Operation :=
  flat_map (walkReplacedBlock id new) (region_blocks r)
with walkReplacedBlock (id : OpId) (new : Operation) (b : Block)
  : list Operation :=
  flat_map (fun o => if bool_decide (op_id o = id)
                     then [new] else walkReplaced id new o)
           (blk_ops b).

(** The return operation that [ReturnOpTypeConversionPattern] builds in
    [root] over [operands]. *)
Definition newReturn (root : Operation) (operands : list Value) : Operation :=
  mkOperation (freshId root) ReturnOp operands [] None [].

(** Operations for the examples of the legality configuration. *)
Module Examples.

Definition ranked : Ty := RankedTensorType "f32" [Some 4%N].

Definition tensorValue : Value := mkValue (BlockArgument 1 0) ranked.

Definition mhloAdd : Operation :=
  mkOperation 10 ("mhlo", "add")%string [tensorValue; tensorValue] [ranked]
              None [].

Definition tensorCast : Operation :=
  mkOperation 11 TensorCastOp [tensorValue] [UnrankedTensorType "f32"]
              None [].

Definition lmhloCopy : Operation :=
  mkOperation 12 ("lmhlo", "copy")%string [Sample.arg1; Sample.arg1] []
              None [].

Definition tensorAddf : Operation :=
  mkOperation 13 ("std", "addf")%string [tensorValue; tensorValue] [ranked]
              None [].

Definition foreign : Operation :=
  mkOperation 14 ("foo", "bar")%string [] [] None [].

Definition callOnBuffers : Operation :=
  mkOperation 15 CallOp [Sample.arg1] [Sample.memref_f32] None [].

(** The target of the pass when the catalogs contribute no pattern and the
    shape and SCF contributions are the sample ones. *)
Definition target (allow_partial_bufferization_ : bool) : ConversionTarget :=
  passTarget Sample.noPatterns Sample.noPatterns Sample.noPatterns
             Sample.noPatterns Sample.noPatterns Sample.noPatterns
             Sample.shapeLegality Sample.scfLegality
             allow_partial_bufferization_.

(** The function of [Sample.moduleStoringToArgument]. *)
Definition funcStoringToArgument : Operation :=
  mkOperation 1 FuncOp [] []
    (Some (mkFunctionType [Sample.tensor_f32; Sample.memref_f32]
                          [Sample.tensor_f32]))
    [mkRegion [mkBlock 1 [Sample.tensor_f32; Sample.memref_f32]
                 [Sample.storeToArgument; Sample.ret]]].


(** [func @h(%arg0: memref<*xf32>, %arg1: i1)]: the body loads the buffer as
    an unranked tensor, selects a buffer with an [scf.if] whose first region
    builds a scalar constant, and stores the tensor into the selected
    buffer. *)
Definition i1 : Ty := OtherType "i1".

Definition bufferArgument : Value :=
  mkValue (BlockArgument 1 0) Sample.memref_f32.
Definition condition : Value := mkValue (BlockArgument 1 1) i1.

Definition loaded : Operation :=
  mkOperation 2 TensorLoadOp [bufferArgument] [Sample.tensor_f32] None [].
Definition loadedTensor : Value := mkValue (OpResult 2 0) Sample.tensor_f32.

Definition nestedConstant : Operation :=
  mkOperation 4 ConstantOp [] [OtherType "f32"] None [].

Definition ifOp : Operation :=
  mkOperation 3 ("scf", "if")%string [condition] [Sample.memref_f32] None
    [mkRegion [mkBlock 2 []
       [nestedConstant;
        mkOperation 5 ("scf", "yield")%string [bufferArgument] [] None []]];
     mkRegion [mkBlock 3 []
       [mkOperation 6 ("scf", "yield")%string [bufferArgument] [] None []]]].
Definition selectedBuffer : Value :=
  mkValue (OpResult 3 0) Sample.memref_f32.

Definition storeIntoSelected : Operation :=
  mkOperation 7 TensorStoreOp [loadedTensor; selectedBuffer] [] None [].

Definition moduleWithNestedConstant : Operation :=
  mkOperation 0 ModuleOp [] [] None
    [mkRegion [mkBlock 0 []
       [mkOperation 1 FuncOp [] []
          (Some (mkFunctionType [Sample.memref_f32; i1] []))
          [mkRegion [mkBlock 1 [Sample.memref_f32; i1]
             [loaded; ifOp; storeIntoSelected;
              mkOperation 8 ReturnOp [] [] None []]]];
        mkOperation 9 ModuleTerminatorOp [] [] None []]]].

(** The pass over the same collaborators as [target]. *)
Definition run (fuel : nat) (allow_partial_bufferization_ : bool)
    (module : Operation) : Outcome PassResult :=
  runPass Sample.noPatterns Sample.noPatterns Sample.noPatterns
          Sample.noPatterns Sample.noPatterns Sample.noPatterns
          Sample.shapeLegality Sample.scfLegality
          fuel allow_partial_bufferization_ module.

End Examples.

(** ** Walks and rewirings of the tree *)

Lemma flat_map_map_commute {A B C D} (g : B -> list D) (g' : A -> list C)
    (h : A -> B) (k : C -> D) (l : list A) :
  Forall (fun x => g (h x) = map k (g' x)) l ->
  flat_map g (map h l) = map k (flat_map g' l).
Proof.
  induction 1 as [|x l Hx _ IH]; simpl; [done|].
  by rewrite Hx, IH, map_app.
Qed.

Lemma map_ext_Forall' {A B} (f g : A -> B) (l : list A) :
  Forall (fun x => f x = g x) l -> map f l = map g l.
Proof. induction 1; simpl; congruence. Qed.

Lemma op_id_mapOperands f o : op_id (mapOperands f o) = op_id o.
Proof. by destruct o. Qed.

Lemma op_id_eraseOps keep o : op_id (eraseOps keep o) = op_id o.
Proof. by destruct o. Qed.

Lemma op_result_types_mapOperands f o :
  op_result_types (mapOperands f o) = op_result_types o.
Proof. by destruct o. Qed.

Lemma opHeader_mapOperands f o :
  opHeader (mapOperands f o) =
  mkOperation (op_id o) (op_name o) (map f (op_operands o))
              (op_result_types o) (op_function_type o) [].
Proof. by destruct o. Qed.

Lemma opHeader_eraseOps keep o : opHeader (eraseOps keep o) = opHeader o.
Proof. by destruct o. Qed.

Lemma walk_mapOperands f o :
  walk (mapOperands f o) = map (mapOperands f) (walk o).
Proof.
  induction o as [o IH] using Operation_tree_ind.
  destruct o as [id name operands rts ft regions]; simpl in *. f_equal.
  apply flat_map_map_commute.
  eapply Forall_impl; [exact IH|]. intros [bs] Hbs; simpl in *.
  apply flat_map_map_commute.
  eapply Forall_impl; [exact Hbs|]. intros [bid args ops] Hops; simpl in *.
  by apply flat_map_map_commute.
Qed.

Lemma nestedOps_mapOperands f o :
  nestedOps (mapOperands f o) = map (mapOperands f) (nestedOps o).
Proof.
  pose proof (walk_mapOperands f o) as H.
  destruct o; simpl in *. by injection H.
Qed.

Lemma walkKept_mapOperands keep f o :
  walkKept keep (mapOperands f o) = map (mapOperands f) (walkKept keep o).
Proof.
  induction o as [o IH] using Operation_tree_ind.
  destruct o as [id name operands rts ft regions]; simpl in *. f_equal.
  apply flat_map_map_commute.
  eapply Forall_impl; [exact IH|]. intros [bs] Hbs; simpl in *.
  apply flat_map_map_commute.
  eapply Forall_impl; [exact Hbs|]. intros [bid args ops] Hops; simpl in *.
  apply flat_map_map_commute.
  eapply Forall_impl; [exact Hops|]. intros o Ho; simpl in *.
  rewrite op_id_mapOperands. by destruct (keep (op_id o)).
Qed.

Lemma walk_filter_erased keep (ops : list Operation) :
  Forall (fun o => walk (eraseOps keep o) =
                   map (eraseOps keep) (walkKept keep o)) ops ->
  flat_map walk (List.filter (fun o => keep (op_id o))
                             (map (eraseOps keep) ops)) =
  map (eraseOps keep)
      (flat_map (fun o => if keep (op_id o) then walkKept keep o else [])
                ops).
Proof.
  induction 1 as [|o ops Ho _ IH]; [done|].
  cbn [map List.filter flat_map]. rewrite op_id_eraseOps.
  destruct (keep (op_id o)); cbn [flat_map app].
  - by rewrite Ho, IH, map_app.
  - exact IH.
Qed.

Lemma walk_eraseOps keep o :
  walk (eraseOps keep o) = map (eraseOps keep) (walkKept keep o).
Proof.
  induction o as [o IH] using Operation_tree_ind.
  destruct o as [id name operands rts ft regions]; simpl in *. f_equal.
  apply flat_map_map_commute.
  eapply Forall_impl; [exact IH|]. intros [bs] Hbs; simpl in *.
  apply flat_map_map_commute.
  eapply Forall_impl; [exact Hbs|]. intros [bid args ops] Hops; simpl in *.
  by apply walk_filter_erased.
Qed.

Lemma eraseOps_mapOperands keep f o :
  eraseOps keep (mapOperands f o) = mapOperands f (eraseOps keep o).
Proof.
  induction o as [o IH] using Operation_tree_ind.
  destruct o as [id name operands rts ft regions]; simpl in *. f_equal.
  rewrite !map_map. apply map_ext_Forall'.
  eapply Forall_impl; [exact IH|]. intros [bs] Hbs; simpl in *. f_equal.
  rewrite !map_map. apply map_ext_Forall'.
  eapply Forall_impl; [exact Hbs|]. intros [bid args ops] Hops; simpl in *.
  f_equal. clear -Hops.
  induction Hops as [|o ops Ho _ IHops]; [done|].
  cbn [map List.filter]. rewrite Ho, op_id_mapOperands, op_id_eraseOps.
  destruct (keep (op_id o)); cbn [map]; by rewrite IHops.
Qed.

Lemma eraseOps_eraseOps k1 k2 o :
  eraseOps k2 (eraseOps k1 o) = eraseOps (fun i => k1 i && k2 i) o.
Proof.
  induction o as [o IH] using Operation_tree_ind.
  destruct o as [id name operands rts ft regions]; simpl in *. f_equal.
  rewrite !map_map. apply map_ext_Forall'.
  eapply Forall_impl; [exact IH|]. intros [bs] Hbs; simpl in *. f_equal.
  rewrite !map_map. apply map_ext_Forall'.
  eapply Forall_impl; [exact Hbs|]. intros [bid args ops] Hops; simpl in *.
  f_equal. clear -Hops.
  induction Hops as [|o ops Ho _ IHops]; [done|].
  cbn [map List.filter]. rewrite !op_id_eraseOps.
  destruct (k1 (op_id o)); cbn [map List.filter andb].
  - rewrite Ho, !op_id_eraseOps.
    destruct (k2 (op_id o)); by rewrite IHops.
  - exact IHops.
Qed.

Lemma mapOperands_ext f g o :
  (forall v, f v = g v) -> mapOperands f o = mapOperands g o.
Proof.
  intros Hfg. induction o as [o IH] using Operation_tree_ind.
  destruct o as [id name operands rts ft regions]; simpl in *. f_equal.
  - by apply map_ext.
  - apply map_ext_Forall'.
    eapply Forall_impl; [exact IH|]. intros [bs] Hbs; simpl in *. f_equal.
    apply map_ext_Forall'.
    eapply Forall_impl; [exact Hbs|]. intros [bid args ops] Hops; simpl in *.
    f_equal. by apply map_ext_Forall'.
Qed.

Lemma mapOperands_id o : mapOperands (fun v => v) o = o.
Proof.
  induction o as [o IH] using Operation_tree_ind.
  destruct o as [id name operands rts ft regions]; simpl in *. f_equal.
  - apply map_id.
  - rewrite <- (map_id regions) at 2. apply map_ext_Forall'.
    eapply Forall_impl; [exact IH|]. intros [bs] Hbs; simpl in *. f_equal.
    rewrite <- (map_id bs) at 2. apply map_ext_Forall'.
    eapply Forall_impl; [exact Hbs|]. intros [bid args ops] Hops; simpl in *.
    f_equal. rewrite <- (map_id ops) at 2. by apply map_ext_Forall'.
Qed.

Lemma substResult_nil id v : substResult id [] v = v.
Proof.
  unfold substResult. destruct (val_def v); [|done]. by case_bool_decide.
Qed.

Lemma find_map_id {A} (p : A -> bool) (h : A -> A) (l : list A) :
  (forall x, p (h x) = p x) -> find p (map h l) = h <$> find p l.
Proof.
  intros Hp. induction l as [|x l IH]; simpl; [done|].
  rewrite Hp. by destruct (p x).
Qed.

Lemma lookupOp_mapOperands id f root :
  lookupOp id (mapOperands f root) = mapOperands f <$> lookupOp id root.
Proof.
  unfold lookupOp. rewrite nestedOps_mapOperands.
  apply find_map_id. intros x. by rewrite op_id_mapOperands.
Qed.

(** ** The unranked-store erasure pattern *)

Lemma substResult_single dst src v :
  substResult dst [src] v = replaceUse (OpResult dst 0) src v.
Proof.
  unfold substResult, replaceUse. destruct v as [[owner i|b i] ty]; simpl.
  - case_bool_decide as Howner; case_bool_decide as Hdef; try done.
    + injection Hdef as _ ->. done.
    + destruct i; [congruence|done].
    + congruence.
  - done.
Qed.

Lemma walkKept_nested_kept keep o :
  Forall (fun x => keep (op_id x) = true)
         (flat_map (walkKeptRegion keep) (op_regions o)).
Proof.
  induction o as [o IH] using Operation_tree_ind.
  destruct o as [id name operands rts ft regions]; simpl in *.
  apply Forall_flat_map. eapply Forall_impl; [exact IH|].
  intros [bs] Hbs; simpl in *.
  apply Forall_flat_map. eapply Forall_impl; [exact Hbs|].
  intros [bid args ops] Hops; simpl in *.
  apply Forall_flat_map. eapply Forall_impl; [exact Hops|].
  intros o Ho. destruct (keep (op_id o)) eqn:Hk; [|constructor].
  destruct o; simpl in *. by constructor.
Qed.

Lemma nestedOps_eraseOps keep root :
  nestedOps (eraseOps keep root) =
  map (eraseOps keep) (flat_map (walkKeptRegion keep) (op_regions root)).
Proof.
  pose proof (walk_eraseOps keep root) as H.
  destruct root; simpl in *. by injection H.
Qed.

Lemma nestedOps_erased_kept keep root o :
  In o (nestedOps (eraseOps keep root)) -> keep (op_id o) = true.
Proof.
  rewrite nestedOps_eraseOps, in_map_iff. intros (x & <- & Hx).
  rewrite op_id_eraseOps.
  pose proof (walkKept_nested_kept keep root) as Hall.
  rewrite Forall_forall in Hall. apply Hall. by apply list_elem_of_In.
Qed.

Lemma walk_storeErased dst store src root :
  map opHeader (walk (storeErased dst store src root)) =
  map (fun o => opHeader (mapOperands (replaceUse (OpResult dst 0) src) o))
      (walkKept (fun i => bool_decide (i ≠ dst) && bool_decide (i ≠ store))
                root).
Proof.
  unfold storeErased.
  rewrite walk_eraseOps, walkKept_mapOperands, !map_map.
  apply map_ext. intros o. rewrite opHeader_eraseOps.
  f_equal. apply mapOperands_ext, substResult_single.
Qed.

Section StoreRewrite.

Import UnrankedTensorStoreTestOnlyPattern.

Lemma store_never_fails op operands root r root' :
  matchAndRewrite op operands root = Done (r, root') -> r = success.
Proof.
  unfold matchAndRewrite, mbind, Rewriter_bind, mret, Rewriter_ret.
  repeat (match goal with
          | |- context [match ?x with _ => _ end] => destruct x
          end; try discriminate).
  congruence.
Qed.

Lemma store_null_destination op operands root dst :
  op_operands op !! 1 = Some dst ->
  getDefiningOp dst = None ->
  matchAndRewrite op operands root = Undefined.
Proof.
  intros Hdst Hnull.
  unfold matchAndRewrite, memref, tensor, getOperand, mbind, Rewriter_bind,
    mret, Rewriter_ret, undefined.
  rewrite Hdst, Hnull. simpl.
  by destruct (op_operands op !! 0).
Qed.

Lemma store_rewrite op operands root src dst A k a s :
  op_operands op !! 0 = Some src ->
  op_operands op !! 1 = Some dst ->
  val_def dst = OpResult A k ->
  lookupOp A root = Some a ->
  length (op_result_types a) = 1 ->
  lookupOp (op_id op) (eraseOps (fun i => bool_decide (i ≠ A)) root)
    = Some s ->
  op_result_types s = [] ->
  matchAndRewrite op operands root
    = Done (success, storeErased A (op_id op) src root).
Proof.
  intros Hsrc Hdst Hdef Ha Hlen Hs Hres.
  unfold matchAndRewrite, memref, tensor, getOperand, mbind, Rewriter_bind,
    mret, Rewriter_ret, replaceOp, getDefiningOp.
  rewrite Hdst, Hsrc, Hdef, Ha. simpl. rewrite Hlen. simpl.
  rewrite eraseOps_mapOperands, lookupOp_mapOperands, Hs. simpl.
  rewrite op_result_types_mapOperands, Hres. simpl.
  unfold storeErased. do 2 f_equal.
  rewrite (mapOperands_ext (substResult (op_id op) []) (fun v => v))
    by apply substResult_nil.
  rewrite mapOperands_id, <- eraseOps_mapOperands.
  apply eraseOps_eraseOps.
Qed.

End StoreRewrite.

(** ** The conversion driver *)

Lemma remapValues_no_converter anchor vs root :
  remapValues None anchor vs root = Done (vs, root).
Proof.
  induction vs as [|v vs IH]; [done|].
  simpl. unfold mbind, Rewriter_bind, mret, Rewriter_ret in *. simpl.
  by rewrite IH.
Qed.

Lemma legalizeOp_legal target ps id op root :
  findOp id root = Some op ->
  isLegal target op = Legal ->
  legalizeOp target ps id root = Done (false, root).
Proof. intros Hfind Hlegal. unfold legalizeOp. by rewrite Hfind, Hlegal. Qed.

(** When no pattern fires the attempts are rolled back one after the other
    and the module is as it was. *)
Lemma legalizePatterns_no_fire ps op root :
  Forall (fun p => exists root',
            legalizeWithPattern p op root = Done (failure, root')) ps ->
  legalizePatterns ps op root = Done (false, root).
Proof.
  induction 1 as [|p ps [root' Hp] _ IH]; simpl; [done|]. by rewrite Hp.
Qed.

Lemma sweep_no_fire target ps worklist root :
  (forall id op, In id worklist -> findOp id root = Some op ->
                 isLegal target op ≠ Legal ->
                 legalizePatterns ps op root = Done (false, root)) ->
  sweep target ps worklist root = Done (false, root).
Proof.
  induction worklist as [|id rest IH]; intros Hquiet; [done|].
  simpl. unfold mbind, Rewriter_bind, mret, Rewriter_ret.
  assert (legalizeOp target ps id root = Done (false, root)) as ->.
  { unfold legalizeOp. destruct (findOp id root) as [op|] eqn:Hfind; [|done].
    destruct (isLegal target op) eqn:Hlegal; [done| |];
      apply (Hquiet id op); simpl; auto; congruence. }
  rewrite IH; [done|]. intros id' op Hin. apply Hquiet. by right.
Qed.

Lemma findOp_In id root op : findOp id root = Some op -> In op (walk root).
Proof. unfold findOp. intros H. by apply find_some in H as [H _]. Qed.

Lemma findOp_id id root op : findOp id root = Some op -> op_id op = id.
Proof.
  unfold findOp. intros H. apply find_some in H as [_ H].
  by apply bool_decide_eq_true in H.
Qed.

Lemma In_insertByBenefit p q ps :
  In p (insertByBenefit q ps) <-> p = q \/ In p ps.
Proof.
  induction ps as [|x ps IH]; simpl; [intuition congruence|].
  destruct (pat_benefit x <=? pat_benefit q); simpl; [intuition congruence|].
  rewrite IH. intuition congruence.
Qed.

Lemma In_orderByBenefit p ps : In p (orderByBenefit ps) <-> In p ps.
Proof.
  induction ps as [|q ps IH]; simpl; [done|].
  rewrite In_insertByBenefit, IH. intuition congruence.
Qed.

(** The invariant rule of the driver: a property of the module that every
    committed rewrite preserves holds at the fixpoint. *)
Section DriverInvariant.

Variable target : ConversionTarget.
Variable ps : list ConversionPattern.
Variable Inv : Operation -> Prop.

Hypothesis rewrite_preserves : forall root op p root',
  Inv root ->
  findOp (op_id op) root = Some op ->
  isLegal target op ≠ Legal ->
  In p ps ->
  legalizeWithPattern p op root = Done (success, root') ->
  Inv root'.

Lemma legalizePatterns_invariant qs op root changed root' :
  (forall p, In p qs -> In p ps) ->
  Inv root ->
  findOp (op_id op) root = Some op ->
  isLegal target op ≠ Legal ->
  legalizePatterns qs op root = Done (changed, root') ->
  Inv root'.
Proof.
  intros Hqs Hinv Hfind Hillegal.
  induction qs as [|q qs IH]; simpl.
  - intros [= _ <-]. exact Hinv.
  - destruct (legalizeWithPattern q op root) as [[[|] root1]| |] eqn:Hq;
      try discriminate.
    + intros [= _ <-]. eapply rewrite_preserves; eauto. apply Hqs. by left.
    + apply IH. intros p Hp. apply Hqs. by right.
Qed.

Lemma legalizeOp_invariant id root changed root' :
  Inv root ->
  legalizeOp target ps id root = Done (changed, root') ->
  Inv root'.
Proof.
  intros Hinv. unfold legalizeOp.
  destruct (findOp id root) as [op|] eqn:Hfind; [|by intros [= _ <-]].
  pose proof (findOp_id _ _ _ Hfind) as Hid.
  destruct (isLegal target op) eqn:Hlegal; [by intros [= _ <-]| |];
    apply legalizePatterns_invariant; auto; try congruence.
Qed.

Lemma sweep_invariant worklist root changed root' :
  Inv root ->
  sweep target ps worklist root = Done (changed, root') ->
  Inv root'.
Proof.
  revert root changed root'.
  induction worklist as [|id rest IH]; intros root changed root' Hinv.
  - by intros [= _ <-].
  - simpl. unfold mbind, Rewriter_bind, mret, Rewriter_ret.
    destruct (legalizeOp target ps id root) as [[c1 root1]| |] eqn:H1;
      try discriminate.
    destruct (sweep target ps rest root1) as [[c2 root2]| |] eqn:H2;
      try discriminate.
    intros [= _ <-]. eapply IH; [|exact H2].
    eapply legalizeOp_invariant; eauto.
Qed.

Lemma legalizeToFixpoint_invariant fuel root root' :
  Inv root ->
  legalizeToFixpoint fuel target ps root = Done (tt, root') ->
  Inv root'.
Proof.
  revert root. induction fuel as [|fuel IH]; intros root Hinv; [done|].
  simpl.
  destruct (sweep target ps (map op_id (walk root)) root)
    as [[[|] root1]| |] eqn:Hsweep; try discriminate.
  - apply IH. eapply sweep_invariant; eauto.
  - intros [= <-]. eapply sweep_invariant; eauto.
Qed.

End DriverInvariant.

(** A module on which no pattern fires is at the fixpoint after one sweep. *)
Lemma legalizeToFixpoint_no_fire fuel target ps root :
  (forall op, In op (walk root) -> isLegal target op ≠ Legal ->
              Forall (fun p => exists root',
                        legalizeWithPattern p op root = Done (failure, root'))
                     ps) ->
  legalizeToFixpoint (S fuel) target ps root = Done (tt, root).
Proof.
  intros Hquiet. simpl. rewrite sweep_no_fire; [done|].
  intros id op _ Hfind Hillegal.
  apply legalizePatterns_no_fire, Hquiet; [|done]. by eapply findOp_In.
Qed.

(** The termination rule of the driver: when every attempt on a reachable
    module is defined and every committed rewrite decreases a measure, the
    driver reaches its fixpoint within as many sweeps as the measure
    allows. *)
Section DriverTermination.

Variable target : ConversionTarget.
Variable ps : list ConversionPattern.
Variable Inv : Operation -> Prop.
Variable measure : Operation -> nat.

Hypothesis attempts_decrease : forall root op p,
  Inv root ->
  findOp (op_id op) root = Some op ->
  isLegal target op ≠ Legal ->
  In p ps ->
  exists r root',
    legalizeWithPattern p op root = Done (r, root') /\
    (r = success -> Inv root' /\ measure root' < measure root).

Lemma legalizePatterns_decreases qs op root :
  (forall p, In p qs -> In p ps) ->
  Inv root ->
  findOp (op_id op) root = Some op ->
  isLegal target op ≠ Legal ->
  exists changed root',
    legalizePatterns qs op root = Done (changed, root') /\
    Inv root' /\
    measure root' <= measure root /\
    (changed = true -> measure root' < measure root).
Proof.
  intros Hqs Hinv Hfind Hillegal.
  induction qs as [|q qs IH]; simpl.
  - exists false, root. repeat split; auto; discriminate.
  - destruct (attempts_decrease root op q Hinv Hfind Hillegal)
      as (r & root1 & -> & Hr); [apply Hqs; by left|].
    destruct r.
    + destruct (Hr eq_refl) as [Hinv1 Hlt].
      exists true, root1. repeat split; auto; lia.
    + apply IH. intros p Hp. apply Hqs. by right.
Qed.

Lemma legalizeOp_decreases id root :
  Inv root ->
  exists changed root',
    legalizeOp target ps id root = Done (changed, root') /\
    Inv root' /\
    measure root' <= measure root /\
    (changed = true -> measure root' < measure root).
Proof.
  intros Hinv. unfold legalizeOp.
  destruct (findOp id root) as [op|] eqn:Hfind.
  - pose proof (findOp_id _ _ _ Hfind) as Hid.
    destruct (isLegal target op) eqn:Hlegal.
    + exists false, root. repeat split; auto; discriminate.
    + apply legalizePatterns_decreases; auto; congruence.
    + apply legalizePatterns_decreases; auto; congruence.
  - exists false, root. repeat split; auto; discriminate.
Qed.

Lemma sweep_decreases worklist root :
  Inv root ->
  exists changed root',
    sweep target ps worklist root = Done (changed, root') /\
    Inv root' /\
    measure root' <= measure root /\
    (changed = true -> measure root' < measure root).
Proof.
  revert root. induction worklist as [|id rest IH]; intros root Hinv.
  - exists false, root. repeat split; auto; discriminate.
  - simpl. unfold mbind, Rewriter_bind, mret, Rewriter_ret.
    destruct (legalizeOp_decreases id root Hinv)
      as (c1 & root1 & -> & Hinv1 & Hle1 & Hlt1).
    destruct (IH root1 Hinv1) as (c2 & root2 & -> & Hinv2 & Hle2 & Hlt2).
    exists (c1 || c2), root2. repeat split; auto; [lia|].
    intros Hc. apply orb_true_iff in Hc as [Hc | Hc].
    + specialize (Hlt1 Hc). lia.
    + specialize (Hlt2 Hc). lia.
Qed.

Lemma legalizeToFixpoint_terminates fuel root :
  Inv root ->
  measure root < fuel ->
  exists root',
    legalizeToFixpoint fuel target ps root = Done (tt, root') /\ Inv root'.
Proof.
  revert root. induction fuel as [|fuel IH]; intros root Hinv Hfuel; [lia|].
  simpl.
  destruct (sweep_decreases (map op_id (walk root)) root Hinv)
    as (changed & root1 & -> & Hinv1 & Hle & Hlt).
  destruct changed.
  - apply IH; [done|]. specialize (Hlt eq_refl). lia.
  - by exists root1.
Qed.

End DriverTermination.

(** ** An undefined attempt makes the run undefined *)

Lemma legalizeWithPattern_other_kind p op root :
  pat_kind p ≠ op_name op ->
  legalizeWithPattern p op root = Done (failure, root).
Proof.
  intros Hkind. unfold legalizeWithPattern.
  by rewrite bool_decide_eq_false_2.
Qed.

(** The patterns rooted at other kinds do not match; the first pattern
    rooted at the kind of [op] decides. *)
Lemma legalizePatterns_undefined ps P op root :
  (forall p, In p ps -> pat_kind p = op_name op -> p = P) ->
  In P ps ->
  legalizeWithPattern P op root = Undefined ->
  legalizePatterns ps op root = Undefined.
Proof.
  intros Honly Hin Hundefined.
  induction ps as [|p ps IH]; [done|]. simpl.
  destruct (decide (pat_kind p = op_name op)) as [Hkind | Hkind].
  - rewrite (Honly p) by (simpl; auto). by rewrite Hundefined.
  - rewrite legalizeWithPattern_other_kind by done.
    apply IH.
    + intros q Hq. apply Honly. by right.
    + destruct Hin as [-> | Hin]; [|done].
      unfold legalizeWithPattern in Hundefined.
      rewrite bool_decide_eq_false_2 in Hundefined by done. discriminate.
Qed.

(** A sweep that reaches, in the state [reached], an entry whose step is
    undefined is undefined. *)
Lemma sweep_reaches_undefined target ps before id after root changed reached :
  sweep target ps before root = Done (changed, reached) ->
  legalizeOp target ps id reached = Undefined ->
  sweep target ps (before ++ id :: after) root = Undefined.
Proof.
  revert root changed.
  induction before as [|i before IH]; intros root changed Hbefore Hid.
  - simpl in Hbefore. unfold mret, Rewriter_ret in Hbefore.
    injection Hbefore as _ <-.
    simpl. unfold mbind, Rewriter_bind. by rewrite Hid.
  - simpl in *. unfold mbind, Rewriter_bind in *.
    destruct (legalizeOp target ps i root) as [[c root']| |];
      try discriminate.
    fold (@mbind Rewriter _ bool bool) in *.
    unfold mbind, Rewriter_bind in *.
    destruct (sweep target ps before root') as [[c' root'']| |] eqn:Hrest;
      try discriminate.
    unfold mret, Rewriter_ret in Hbefore. injection Hbefore as _ <-.
    by rewrite (IH root' c' Hrest Hid).
Qed.

(** * The claims *)

(** ** The unranked-store erasure pattern (C2, C3, C9) *)

(** C2, as stated, fails: on the sample module the destination buffer of
    the store has a second use, in [dim], and the pattern still reports
    success, erasing both the call that defines the buffer and the store. *)
Lemma additional_use_does_not_stop_the_erasure :
  In Sample.dim (walk Sample.module) /\
  In Sample.buf (op_operands Sample.dim) /\
  exists root',
    UnrankedTensorStoreTestOnlyPattern.matchAndRewrite
      Sample.store (op_operands Sample.store) Sample.module
      = Done (success, root') /\
    findOp (op_id Sample.call) root' = None /\
    findOp (op_id Sample.store) root' = None.
Proof.
  split; [simpl; tauto|]. split; [simpl; tauto|].
  eexists. split; [vm_compute; reflexivity|]. by vm_compute.
Qed.

(** C2, amended: the pattern has no match condition of its own.  It never
    reports no-match, and whenever the destination is the single result of
    an operation of the module and the store is not nested in that
    operation it reports success, whatever the type of the stored tensor
    and however many other uses the destination has: all of them are
    rewired to the stored tensor and both operations are erased.  What
    confines the pattern is the legality target: the driver does not hand
    it a store that is classified legal. *)
Theorem unranked_store_pattern_has_no_match_condition
    (op : Operation) (operands : list Value) (root : Operation) :
  (forall r root',
      UnrankedTensorStoreTestOnlyPattern.matchAndRewrite op operands root
        = Done (r, root') -> r = success) /\
  (forall src dst A k a s,
      op_operands op !! 0 = Some src ->
      op_operands op !! 1 = Some dst ->
      val_def dst = OpResult A k ->
      lookupOp A root = Some a ->
      length (op_result_types a) = 1 ->
      lookupOp (op_id op) (eraseOps (fun i => bool_decide (i ≠ A)) root)
        = Some s ->
      op_result_types s = [] ->
      UnrankedTensorStoreTestOnlyPattern.matchAndRewrite op operands root
        = Done (success, storeErased A (op_id op) src root)) /\
  (forall target ps id module,
      findOp id module = Some op ->
      isLegal target op = Legal ->
      legalizeOp target ps id module = Done (false, module)).
Proof.
  split; [|split].
  - intros r root'. apply store_never_fails.
  - intros. by eapply store_rewrite.
  - intros target ps id module. apply legalizeOp_legal.
Qed.

Lemma unranked_store_pattern_has_no_match_condition_witness :
  UnrankedTensorStoreTestOnlyPattern.matchAndRewrite
    Sample.store [] Sample.module
  = Done (success, storeErased 2 3 Sample.arg0 Sample.module).
Proof.
  apply (proj1 (proj2 (unranked_store_pattern_has_no_match_condition
                         Sample.store [] Sample.module))
               Sample.arg0 Sample.buf 2 0 Sample.call Sample.store);
    reflexivity.
Defined.




(** C9: the rewrite relies on the destination having a defining operation
    without checking it.  The pattern never reports no-match, and on a store
    whose destination is a block argument the null result of
    [getDefiningOp] is handed to [replaceOp]: the behaviour is undefined. *)
Theorem unranked_store_unchecked_defining_op
    (op : Operation) (operands : list Value) (root : Operation)
    (dst : Value) (block : BlockId) (i : nat) :
  op_operands op !! 1 = Some dst ->
  val_def dst = BlockArgument block i ->
  getDefiningOp dst = None /\
  UnrankedTensorStoreTestOnlyPattern.matchAndRewrite op operands root
    = Undefined /\
  (forall op' operands' root' r root'',
      UnrankedTensorStoreTestOnlyPattern.matchAndRewrite op' operands' root'
        = Done (r, root'') -> r = success).
Proof.
  intros Hdst Hdef.
  assert (getDefiningOp dst = None) as Hnull
    by (unfold getDefiningOp; by rewrite Hdef).
  split; [exact Hnull|]. split.
  - by eapply store_null_destination.
  - intros op' operands' root' r root''. apply store_never_fails.
Qed.

Lemma unranked_store_unchecked_defining_op_witness :
  UnrankedTensorStoreTestOnlyPattern.matchAndRewrite
    Sample.storeToArgument (op_operands Sample.storeToArgument) Sample.module
  = Undefined.
Proof.
  apply (unranked_store_unchecked_defining_op
           Sample.storeToArgument (op_operands Sample.storeToArgument)
           Sample.module Sample.arg1 1 1); reflexivity.
Defined.

(** ** The legality configuration and the two modes of the pass *)

Lemma isLegalTypes_spec converter ts :
  isLegalTypes converter ts = true <->
  forall t, In t ts -> convertType converter t = t.
Proof.
  unfold isLegalTypes. rewrite forallb_forall.
  split; intros H t Ht; specialize (H t Ht).
  - by apply bool_decide_eq_true in H.
  - by apply bool_decide_eq_true.
Qed.

Lemma Bufferize_convertType_fixed t :
  convertType BufferizeTypeConverter t = t <-> isa_TensorType t = false.
Proof. destruct t; simpl; split; intros; congruence. Qed.

Lemma Bufferize_isLegalTypes ts :
  isLegalTypes BufferizeTypeConverter ts = none_of ts isa_TensorType.
Proof.
  unfold isLegalTypes, none_of.
  induction ts as [|t ts IH]; [done|]. cbn [forallb existsb].
  rewrite IH. pose proof (Bufferize_convertType_fixed t) as Ht.
  destruct (isa_TensorType t).
  - rewrite bool_decide_eq_false_2; [done|]. intros H. apply Ht in H. done.
  - rewrite bool_decide_eq_true_2; [done|]. by apply Ht.
Qed.

Lemma rule_ConstantOp b c :
  dynamicRules (configureTarget b c) !! ConstantOp = Some (typesAreLegal c).
Proof. lookup_rule. Qed.

Lemma rule_SelectOp b c :
  dynamicRules (configureTarget b c) !! SelectOp = Some (typesAreLegal c).
Proof. lookup_rule. Qed.

Lemma rule_TensorStoreOp b c :
  dynamicRules (configureTarget b c) !! TensorStoreOp
  = Some (fun op => negb (default true (isa_UnrankedTensorType <$>
                                          TensorStoreOp_tensorType op))).
Proof. lookup_rule. Qed.

Lemma rule_FuncOp b c :
  dynamicRules (configureTarget b c) !! FuncOp
  = Some (fun op =>
            isLegalTypes c (getInputs (FuncOp_getType op)) &&
            isLegalTypes c (getResults (FuncOp_getType op)) &&
            isLegalRegion c (FuncOp_getBody op)).
Proof. lookup_rule. Qed.

Lemma rule_ModuleOp b c :
  dynamicRules (configureTarget b c) !! ModuleOp = None.
Proof. lookup_rule. Qed.

Lemma rule_ModuleTerminatorOp b c :
  dynamicRules (configureTarget b c) !! ModuleTerminatorOp = None.
Proof. lookup_rule. Qed.

Lemma rule_TensorLoadOp b c :
  dynamicRules (configureTarget b c) !! TensorLoadOp = None.
Proof. lookup_rule. Qed.

Lemma rule_TensorToMemrefOp b c :
  dynamicRules (configureTarget b c) !! TensorToMemrefOp = None.
Proof. lookup_rule. Qed.

(** The registration sets do not depend on the converter. *)
Lemma configureTarget_sets b c :
  illegalOps (configureTarget b c)
    = illegalOps (configureTarget b BufferizeTypeConverter) /\
  illegalDialects (configureTarget b c)
    = illegalDialects (configureTarget b BufferizeTypeConverter) /\
  legalOps (configureTarget b c)
    = legalOps (configureTarget b BufferizeTypeConverter) /\
  legalDialects (configureTarget b c)
    = legalDialects (configureTarget b BufferizeTypeConverter).
Proof.
  unfold configureTarget.
  cbv beta zeta iota
      delta [addDynamicallyLegalOp illegalOps illegalDialects legalOps
             legalDialects].
  repeat split; reflexivity.
Qed.

Lemma isLegal_static target op (kindIllegal dialectIllegal kindLegal
                                dialectLegal : bool) :
  dynamicRules target !! op_name op = None ->
  bool_decide (op_name op ∈ illegalOps target) = kindIllegal ->
  bool_decide (getDialect (op_name op) ∈ illegalDialects target)
    = dialectIllegal ->
  bool_decide (op_name op ∈ legalOps target) = kindLegal ->
  bool_decide (getDialect (op_name op) ∈ legalDialects target)
    = dialectLegal ->
  isLegal target op =
    if kindIllegal || dialectIllegal then Illegal
    else if kindLegal || dialectLegal then Legal else Unknown.
Proof. intros Hrule <- <- <- <-. unfold isLegal. by rewrite Hrule. Qed.

Lemma isLegal_dynamic (target : ConversionTarget) (op : Operation)
    (callback : Operation -> bool) :
  dynamicRules target !! op_name op = Some callback ->
  isLegal target op = if callback op then Legal else Illegal.
Proof. intros Hrule. unfold isLegal. by rewrite Hrule. Qed.

(** A dynamic rule changes the classification of the kinds it names only. *)
Lemma isLegal_addDynamicallyLegalOp ks callback target op :
  ~ In (op_name op) ks ->
  isLegal (addDynamicallyLegalOp ks callback target) op = isLegal target op.
Proof.
  intros Hkind. unfold isLegal, addDynamicallyLegalOp. simpl.
  assert ((foldr (fun k rules => <[k := callback]> rules)
                 (dynamicRules target) ks : gmap OperationName _)
            !! op_name op
          = dynamicRules target !! op_name op) as ->; [|done].
  induction ks as [|k ks IH]; simpl; [done|].
  rewrite lookup_insert_ne by (intros ->; apply Hkind; by left).
  apply IH. intros Hin. apply Hkind. by right.
Qed.

Lemma Sample_shapeLegality_is_local converter patterns target op :
  getDialect (op_name op) ≠ ShapeDialect ->
  isLegal (Sample.shapeLegality converter patterns target).2 op
  = isLegal target op.
Proof.
  intros Hdialect. apply isLegal_addDynamicallyLegalOp.
  intros [H | [H | []]]; apply Hdialect; by rewrite <- H.
Qed.

Lemma Sample_scfLegality_is_local converter patterns target op :
  getDialect (op_name op) ≠ SCFDialect ->
  isLegal (Sample.scfLegality converter patterns target).2 op
  = isLegal target op.
Proof.
  intros Hdialect. apply isLegal_addDynamicallyLegalOp.
  intros [H | [H | [H | []]]]; apply Hdialect; by rewrite <- H.
Qed.

Section PassClaims.

(** The collaborators of the pass, as in [BufferizePass]. *)
Variable populateHLOToLHLOConversionPattern :
  TypeConverter -> OwningRewritePatternList -> OwningRewritePatternList.
Variable populateFuncOpTypeConversionPattern :
  TypeConverter -> OwningRewritePatternList -> OwningRewritePatternList.
Variable populateCallOpTypeConversionPattern :
  TypeConverter -> OwningRewritePatternList -> OwningRewritePatternList.
Variable populateStdBufferizePatterns :
  TypeConverter -> OwningRewritePatternList -> OwningRewritePatternList.
Variable populateEliminateBufferizeMaterializationsPatterns :
  TypeConverter -> OwningRewritePatternList -> OwningRewritePatternList.
Variable populateExtraStdBufferizePattern :
  TypeConverter -> OwningRewritePatternList -> OwningRewritePatternList.
Variable populateShapeStructuralTypeConversionsAndLegality :
  TypeConverter -> OwningRewritePatternList -> ConversionTarget ->
  OwningRewritePatternList * ConversionTarget.
Variable populateSCFStructuralTypeConversionsAndLegality :
  TypeConverter -> OwningRewritePatternList -> ConversionTarget ->
  OwningRewritePatternList * ConversionTarget.

(** The shape and SCF contributions only decide the legality of the
    operations of their own dialect. *)
Hypothesis shape_legality_is_local : forall converter patterns target op,
  getDialect (op_name op) ≠ ShapeDialect ->
  isLegal (populateShapeStructuralTypeConversionsAndLegality
             converter patterns target).2 op
  = isLegal target op.

Hypothesis scf_legality_is_local : forall converter patterns target op,
  getDialect (op_name op) ≠ SCFDialect ->
  isLegal (populateSCFStructuralTypeConversionsAndLegality
             converter patterns target).2 op
  = isLegal target op.

Local Abbreviation target :=
  (passTarget populateHLOToLHLOConversionPattern
     populateFuncOpTypeConversionPattern
     populateCallOpTypeConversionPattern
     populateStdBufferizePatterns
     populateEliminateBufferizeMaterializationsPatterns
     populateExtraStdBufferizePattern
     populateShapeStructuralTypeConversionsAndLegality
     populateSCFStructuralTypeConversionsAndLegality).

Local Abbreviation patterns :=
  (passPatterns populateHLOToLHLOConversionPattern
     populateFuncOpTypeConversionPattern
     populateCallOpTypeConversionPattern
     populateStdBufferizePatterns
     populateEliminateBufferizeMaterializationsPatterns
     populateExtraStdBufferizePattern
     populateShapeStructuralTypeConversionsAndLegality
     populateSCFStructuralTypeConversionsAndLegality).

Local Abbreviation run :=
  (runPass populateHLOToLHLOConversionPattern
     populateFuncOpTypeConversionPattern
     populateCallOpTypeConversionPattern
     populateStdBufferizePatterns
     populateEliminateBufferizeMaterializationsPatterns
     populateExtraStdBufferizePattern
     populateShapeStructuralTypeConversionsAndLegality
     populateSCFStructuralTypeConversionsAndLegality).

Local Abbreviation runWith :=
  (runOnOperation populateHLOToLHLOConversionPattern
     populateFuncOpTypeConversionPattern
     populateCallOpTypeConversionPattern
     populateStdBufferizePatterns
     populateEliminateBufferizeMaterializationsPatterns
     populateExtraStdBufferizePattern
     populateShapeStructuralTypeConversionsAndLegality
     populateSCFStructuralTypeConversionsAndLegality).

Lemma passTarget_outside_shape_scf b op :
  getDialect (op_name op) ≠ ShapeDialect ->
  getDialect (op_name op) ≠ SCFDialect ->
  isLegal (target b) op
  = isLegal (configureTarget b BufferizeTypeConverter) op.
Proof.
  intros Hshape Hscf. unfold passTarget, configurePatterns.
  match goal with
  | |- context [populateShapeStructuralTypeConversionsAndLegality ?c ?p ?t] =>
      pose proof (shape_legality_is_local c p t op Hshape) as H1;
      destruct (populateShapeStructuralTypeConversionsAndLegality c p t)
        as [ps1 t1]
  end.
  match goal with
  | |- context [populateSCFStructuralTypeConversionsAndLegality ?c ?p ?t] =>
      pose proof (scf_legality_is_local c p t op Hscf) as H2;
      destruct (populateSCFStructuralTypeConversionsAndLegality c p t)
        as [ps2 t2]
  end.
  simpl in *. congruence.
Qed.

Lemma passPatterns_own b :
  exists others,
    patterns b = others ++ [UnrankedTensorStoreTestOnlyPattern.pattern;
                            ReturnOpTypeConversionPattern.pattern
                              BufferizeTypeConverter].
Proof.
  unfold passPatterns, configurePatterns.
  destruct (populateShapeStructuralTypeConversionsAndLegality _ _ _)
    as [ps1 t1].
  destruct (populateSCFStructuralTypeConversionsAndLegality _ _ _)
    as [ps2 t2].
  exists ps2. simpl. by rewrite <- app_assoc.
Qed.

(** C5, amended: a constant or select operation is legal exactly when none
    of its result types is a tensor type, in both modes, and the driver
    never hands a legal one to a pattern: its step on that operation leaves
    the module as it is.  A rewrite fired on another operation can still
    remove it: the unranked-store erasure leaves no operation with the
    identity of the store or of the operation that defines its destination;
    it leaves the constant or select in the module verbatim whenever that
    is neither of the two nor nested in one of them, and none of its
    operands is the destination.  The operations range over those that obey
    the signature of their kind, in which a tensor-typed operand comes with
    a tensor-typed result: a constant has no operand, and the result of a
    select has the type of the selected operands, its condition being [i1]
    or a mask shaped like the result. *)
Theorem constant_and_select_legality
    (allow_partial_bufferization_ : bool) (op : Operation) :
  op_name op = ConstantOp \/ op_name op = SelectOp ->
  (existsb isa_TensorType (getOperandTypes op) = true ->
   existsb isa_TensorType (getResultTypes op) = true) ->
  (isLegal (target allow_partial_bufferization_) op = Legal <->
   none_of (getResultTypes op) isa_TensorType = true) /\
  (isLegal (target allow_partial_bufferization_) op = Legal ->
   forall ps id root,
     findOp id root = Some op ->
     legalizeOp (target allow_partial_bufferization_) ps id root
     = Done (false, root)) /\
  (forall store operands root src dst A k a s,
      op_operands store !! 0 = Some src ->
      op_operands store !! 1 = Some dst ->
      val_def dst = OpResult A k ->
      lookupOp A root = Some a ->
      length (op_result_types a) = 1 ->
      lookupOp (op_id store) (eraseOps (fun i => bool_decide (i ≠ A)) root)
        = Some s ->
      op_result_types s = [] ->
      exists root',
        UnrankedTensorStoreTestOnlyPattern.matchAndRewrite store operands root
          = Done (success, root') /\
        (forall o, In o (nestedOps root') ->
                   op_id o ≠ A /\ op_id o ≠ op_id store) /\
        (In op (walkKept (fun i => bool_decide (i ≠ A) &&
                                   bool_decide (i ≠ op_id store)) root) ->
         (forall v, In v (op_operands op) -> val_def v ≠ OpResult A 0) ->
         remainsVerbatim op root')).
Proof.
  intros Hkind Hsignature.
  assert (isLegal (target allow_partial_bufferization_) op
          = if typesAreLegal BufferizeTypeConverter op
            then Legal else Illegal) as Hrule.
  { rewrite passTarget_outside_shape_scf.
    - apply isLegal_dynamic.
      destruct Hkind as [-> | ->];
        [apply rule_ConstantOp | apply rule_SelectOp].
    - destruct Hkind as [-> | ->]; discriminate.
    - destruct Hkind as [-> | ->]; discriminate. }
  split; [|split].
  - rewrite Hrule. unfold typesAreLegal.
    rewrite !Bufferize_isLegalTypes. unfold none_of in *.
    destruct (existsb isa_TensorType (getResultTypes op)).
    + rewrite andb_false_r. split; discriminate.
    + destruct (existsb isa_TensorType (getOperandTypes op)).
      * specialize (Hsignature eq_refl). discriminate.
      * done.
  - intros Hlegal ps id root Hfind. by eapply legalizeOp_legal.
  - intros store operands root src dst A k a s Hsrc Hdst Hdef Ha Hlen Hs Hres.
    exists (storeErased A (op_id store) src root).
    split; [by eapply store_rewrite|].
    split.
    { intros o Ho. apply nestedOps_erased_kept in Ho.
      apply andb_true_iff in Ho as [H1 H2].
      apply bool_decide_eq_true in H1, H2. done. }
    intros Hkept Hunused.
    unfold remainsVerbatim. rewrite walk_storeErased.
    apply in_map_iff. exists op. split; [|done].
    rewrite opHeader_mapOperands. unfold opHeader. f_equal.
    rewrite <- (map_id (op_operands op)) at 2. apply map_ext_in.
    intros v Hv. unfold replaceUse.
    rewrite bool_decide_eq_false_2; [done|]. by apply Hunused.
Qed.

(** C6: [TensorLoadOp] and [TensorToMemrefOp] are registered illegal
    exactly when partial bufferization is not allowed; no other rule of
    the pass names them, so that they are then classified through the
    legal Standard dialect. *)
Theorem bridging_casts_illegal_iff_not_partial
    (allow_partial_bufferization_ : bool) (converter : TypeConverter) :
  (TensorLoadOp ∈ illegalOps (configureTarget allow_partial_bufferization_
                                              converter)
   <-> allow_partial_bufferization_ = false) /\
  (TensorToMemrefOp ∈ illegalOps (configureTarget allow_partial_bufferization_
                                                  converter)
   <-> allow_partial_bufferization_ = false) /\
  dynamicRules (configureTarget allow_partial_bufferization_ converter)
    !! TensorLoadOp = None /\
  dynamicRules (configureTarget allow_partial_bufferization_ converter)
    !! TensorToMemrefOp = None /\
  (StandardOpsDialect ∉ illegalDialects
     (configureTarget allow_partial_bufferization_ converter)) /\
  (forall op,
      op_name op = TensorLoadOp \/ op_name op = TensorToMemrefOp ->
      isLegal (target allow_partial_bufferization_) op
      = if allow_partial_bufferization_ then Legal else Illegal).
Proof.
  destruct (configureTarget_sets allow_partial_bufferization_ converter)
    as (-> & -> & _ & _).
  split; [|split; [|split; [|split; [|split]]]].
  - rewrite <- (bool_decide_spec (_ ∈ _)).
    destruct allow_partial_bufferization_; vm_compute; intuition congruence.
  - rewrite <- (bool_decide_spec (_ ∈ _)).
    destruct allow_partial_bufferization_; vm_compute; intuition congruence.
  - apply rule_TensorLoadOp.
  - apply rule_TensorToMemrefOp.
  - rewrite <- (bool_decide_spec (_ ∈ _)).
    destruct allow_partial_bufferization_; vm_compute; tauto.
  - intros op Hkind. rewrite passTarget_outside_shape_scf.
    + erewrite isLegal_static;
        [ | destruct Hkind as [-> | ->];
            [apply rule_TensorLoadOp | apply rule_TensorToMemrefOp]
          | reflexivity | reflexivity | reflexivity | reflexivity ].
      destruct Hkind as [-> | ->];
        destruct allow_partial_bufferization_; vm_compute; reflexivity.
    + destruct Hkind as [-> | ->]; discriminate.
    + destruct Hkind as [-> | ->]; discriminate.
Qed.

(** C7: a tensor store is legal exactly when the stored value is not an
    unranked tensor, an unranked store is illegal and has the erasure
    pattern registered for its kind, and the predicate decides although
    the dialect of the operation is unconditionally legal. *)
Theorem tensor_store_legality
    (allow_partial_bufferization_ : bool) (op : Operation)
    (stored : Value) :
  op_name op = TensorStoreOp ->
  op_operands op !! 0 = Some stored ->
  (isLegal (target allow_partial_bufferization_) op = Legal <->
   isa_UnrankedTensorType (val_type stored) = false) /\
  (isa_UnrankedTensorType (val_type stored) = true ->
   isLegal (target allow_partial_bufferization_) op = Illegal) /\
  getDialect (op_name op) ∈
    legalDialects (configureTarget allow_partial_bufferization_
                                   BufferizeTypeConverter) /\
  In UnrankedTensorStoreTestOnlyPattern.pattern
     (patterns allow_partial_bufferization_) /\
  pat_kind UnrankedTensorStoreTestOnlyPattern.pattern = op_name op.
Proof.
  intros Hkind Hstored.
  assert (isLegal (target allow_partial_bufferization_) op
          = if negb (isa_UnrankedTensorType (val_type stored))
            then Legal else Illegal) as Hrule.
  { rewrite passTarget_outside_shape_scf; [|by rewrite Hkind..].
    erewrite isLegal_dynamic; [|rewrite Hkind; apply rule_TensorStoreOp].
    unfold TensorStoreOp_tensorType. by rewrite Hstored. }
  rewrite Hrule, Hkind.
  split; [|split; [|split; [|split]]].
  - destruct (isa_UnrankedTensorType (val_type stored)); simpl;
      split; congruence.
  - by intros ->.
  - rewrite <- (bool_decide_spec (_ ∈ _)).
    by destruct allow_partial_bufferization_; vm_compute.
  - destruct (passPatterns_own allow_partial_bufferization_)
      as [others ->].
    apply in_or_app. right. by left.
  - reflexivity.
Qed.

(** C8: a function is legal exactly when its declared input types, its
    declared result types and every type inside its body are left
    unchanged by the type converter. *)
Theorem function_legality
    (allow_partial_bufferization_ : bool) (op : Operation)
    (type : FunctionType) (body : Region) :
  op_name op = FuncOp ->
  op_function_type op = Some type ->
  op_regions op !! 0 = Some body ->
  (isLegal (target allow_partial_bufferization_) op = Legal <->
   (forall t, In t (getInputs type) ->
              convertType BufferizeTypeConverter t = t) /\
   (forall t, In t (getResults type) ->
              convertType BufferizeTypeConverter t = t) /\
   (forall t, In t (flat_map blk_args (blocksOfRegion body) ++
                    flat_map typesOfOp (walkRegion body)) ->
              convertType BufferizeTypeConverter t = t)).
Proof.
  intros Hkind Htype Hbody.
  rewrite passTarget_outside_shape_scf; [|by rewrite Hkind..].
  erewrite isLegal_dynamic; [|rewrite Hkind; apply rule_FuncOp].
  unfold FuncOp_getType, FuncOp_getBody, isLegalRegion.
  rewrite Htype, Hbody. simpl.
  rewrite <- (isLegalTypes_spec BufferizeTypeConverter (getInputs type)).
  rewrite <- (isLegalTypes_spec BufferizeTypeConverter (getResults type)).
  rewrite <- (isLegalTypes_spec BufferizeTypeConverter
                (flat_map blk_args (blocksOfRegion body) ++
                 flat_map typesOfOp (walkRegion body))).
  assert (isLegalTypes BufferizeTypeConverter
            (flat_map blk_args (blocksOfRegion body) ++
             flat_map typesOfOp (walkRegion body))
          = isLegalTypes BufferizeTypeConverter
              (flat_map blk_args (blocksOfRegion body)) &&
            isLegalTypes BufferizeTypeConverter
              (flat_map typesOfOp (walkRegion body))) as ->
    by apply forallb_app.
  destruct (isLegalTypes _ (getInputs type)),
           (isLegalTypes _ (getResults type)),
           (isLegalTypes _ (flat_map blk_args _)),
           (isLegalTypes _ (flat_map typesOfOp _)); simpl;
    intuition congruence.
Qed.

(** C10: the module operation and its terminator are registered legal in
    both modes; the target classifies them as legal, the driver leaves
    them unchanged, and the module operation itself has no part in the
    failure decision of full mode. *)
Theorem module_is_always_legal
    (allow_partial_bufferization_ : bool) (op : Operation) :
  op_name op = ModuleOp \/ op_name op = ModuleTerminatorOp ->
  ModuleOp ∈ legalOps (configureTarget allow_partial_bufferization_
                                       BufferizeTypeConverter) /\
  ModuleTerminatorOp ∈ legalOps (configureTarget allow_partial_bufferization_
                                                 BufferizeTypeConverter) /\
  isLegal (target allow_partial_bufferization_) op = Legal /\
  (forall ps id root,
      findOp id root = Some op ->
      legalizeOp (target allow_partial_bufferization_) ps id root
      = Done (false, root)) /\
  (forall module,
      op_name module = ModuleOp ->
      allLegal (target allow_partial_bufferization_) module
      = forallb (fun o => bool_decide
                   (isLegal (target allow_partial_bufferization_) o = Legal))
                (nestedOps module)).
Proof.
  intros Hkind.
  assert (forall o, op_name o = ModuleOp \/ op_name o = ModuleTerminatorOp ->
                    isLegal (target allow_partial_bufferization_) o = Legal)
    as Hlegal.
  { intros o Ho. rewrite passTarget_outside_shape_scf.
    - erewrite isLegal_static;
        [ | destruct Ho as [-> | ->];
            [apply rule_ModuleOp | apply rule_ModuleTerminatorOp]
          | reflexivity | reflexivity | reflexivity | reflexivity ].
      destruct Ho as [-> | ->];
        destruct allow_partial_bufferization_; vm_compute; reflexivity.
    - destruct Ho as [-> | ->]; discriminate.
    - destruct Ho as [-> | ->]; discriminate. }
  split; [|split; [|split; [|split]]].
  - rewrite <- (bool_decide_spec (_ ∈ _)).
    by destruct allow_partial_bufferization_; vm_compute.
  - rewrite <- (bool_decide_spec (_ ∈ _)).
    by destruct allow_partial_bufferization_; vm_compute.
  - by apply Hlegal.
  - intros ps id root Hfind. eapply legalizeOp_legal; eauto.
  - intros module Hmodule. unfold allLegal, nestedOps.
    destruct module; simpl in *.
    rewrite Hlegal by (simpl; by left). reflexivity.
Qed.

Lemma runPass_partial fuel module :
  run fuel true module
  = signalPassFailureIfFailed
      (applyPartialConversion fuel module (target true) (patterns true)).
Proof.
  unfold runPass, runOnOperation, passTarget, passPatterns.
  by destruct (configurePatterns _ _ _ _ _ _ _ _ _ _).
Qed.

Lemma runPass_full fuel module :
  run fuel false module
  = signalPassFailureIfFailed
      (applyFullConversion fuel module (target false) (patterns false)).
Proof.
  unfold runPass, runOnOperation, passTarget, passPatterns.
  by destruct (configurePatterns _ _ _ _ _ _ _ _ _ _).
Qed.

Lemma runOnOperation_forwards partialConversion fullConversion b module :
  runWith partialConversion fullConversion b module
  = signalPassFailureIfFailed
      (if b then partialConversion module (target b) (patterns b)
       else fullConversion module (target b) (patterns b)).
Proof.
  unfold runOnOperation, passTarget, passPatterns.
  destruct (configurePatterns _ _ _ _ _ _ _ _ _ _). by destruct b.
Qed.

(** Partial mode as designed: the pass signals what the driver reports, and
    the driver reports success at the fixpoint, so a run that finishes
    never signals failure.  The driver leaves the module as it is on an
    operation on which no pattern fires; a module on which no pattern
    fires at all is handed back verbatim after one sweep; an operation
    stays in the final IR verbatim as long as the rewrites committed
    during the run keep it in place with its operands; and a run in which
    every attempt is defined and every committed rewrite decreases a
    measure of the module stops, with success. *)
Theorem partial_mode_never_signals_failure
    (fuel : nat) (module : Operation) :
  (forall r, run fuel true module = Done r -> pass_failed r = false) /\
  (forall partialConversion fullConversion r,
      runWith partialConversion fullConversion true module = Done r ->
      exists result,
        partialConversion module (target true) (patterns true)
          = Done (result, pass_module r) /\
        pass_failed r = failed result) /\
  (forall ps op root,
      Forall (fun p => exists root',
                legalizeWithPattern p op root = Done (failure, root')) ps ->
      legalizePatterns ps op root = Done (false, root)) /\
  ((forall op, In op (walk module) ->
               isLegal (target true) op ≠ Legal ->
               Forall (fun p => exists root',
                         legalizeWithPattern p op module
                         = Done (failure, root'))
                      (orderByBenefit (patterns true))) ->
   run (S fuel) true module = Done (mkPassResult false module)) /\
  (forall (Inv : Operation -> Prop) (o : Operation),
      (forall root op p root',
          Inv root ->
          findOp (op_id op) root = Some op ->
          isLegal (target true) op ≠ Legal ->
          In p (patterns true) ->
          legalizeWithPattern p op root = Done (success, root') ->
          Inv root') ->
      (forall root, Inv root -> remainsVerbatim o root) ->
      Inv module ->
      forall r, run fuel true module = Done r ->
                remainsVerbatim o (pass_module r)) /\
  (forall (Inv : Operation -> Prop) (measure : Operation -> nat)
          (o : Operation),
      (forall root op p,
          Inv root ->
          findOp (op_id op) root = Some op ->
          isLegal (target true) op ≠ Legal ->
          In p (patterns true) ->
          exists r root',
            legalizeWithPattern p op root = Done (r, root') /\
            (r = success -> Inv root' /\ measure root' < measure root)) ->
      (forall root, Inv root -> remainsVerbatim o root) ->
      Inv module ->
      measure module < fuel ->
      exists r, run fuel true module = Done r /\
                pass_failed r = false /\
                remainsVerbatim o (pass_module r)).
Proof.
  split; [|split; [|split; [|split; [|split]]]].
  - intros r. rewrite runPass_partial. unfold applyPartialConversion.
    destruct (legalizeToFixpoint _ _ _ _) as [[[] m']| |];
      try discriminate.
    by intros [= <-].
  - intros partialConversion fullConversion r.
    rewrite runOnOperation_forwards.
    destruct (partialConversion _ _ _) as [[result m']| |];
      try discriminate.
    intros [= <-]. by exists result.
  - apply legalizePatterns_no_fire.
  - intros Hquiet. rewrite runPass_partial. unfold applyPartialConversion.
    by rewrite legalizeToFixpoint_no_fire.
  - intros Inv o Hstep Hremains Hinit r.
    rewrite runPass_partial. unfold applyPartialConversion.
    destruct (legalizeToFixpoint _ _ _ _) as [[[] m']| |] eqn:Hrun;
      try discriminate.
    intros [= <-]. simpl. apply Hremains.
    eapply (legalizeToFixpoint_invariant (target true)
              (orderByBenefit (patterns true)) Inv); [|exact Hinit|exact Hrun].
    intros root op p root' HInv Hfind Hillegal Hp.
    apply (Hstep root op p root' HInv Hfind Hillegal).
    by apply In_orderByBenefit.
  - intros Inv measure o Hstep Hremains Hinit Hfuel.
    destruct (legalizeToFixpoint_terminates (target true)
                (orderByBenefit (patterns true)) Inv measure)
      with (fuel := fuel) (root := module) as (module' & Hrun & Hfinal);
      [|exact Hinit|exact Hfuel|].
    + intros root op p HInv Hfind Hillegal Hp.
      apply (Hstep root op p HInv Hfind Hillegal).
      by apply In_orderByBenefit.
    + exists (mkPassResult false module').
      rewrite runPass_partial. unfold applyPartialConversion.
      rewrite Hrun. simpl. auto.
Qed.

(** C1: partial mode does not report success on every input module.
    When the driver, having swept the operations that come before it,
    reaches an unranked tensor store into a block argument, the store is
    illegal and the erasure pattern, the only pattern rooted at tensor
    stores, is attempted on it; the attempt hands the null defining
    operation of the destination to [replaceOp].  The step of the driver,
    and with it the run of the pass, is undefined, for any number of
    sweeps, where the description promises a fixpoint and success. *)
Theorem partial_mode_is_undefined_on_a_store_into_a_block_argument
    (fuel : nat) (module op : Operation) (before after : list Operation)
    (changed : bool) (reached : Operation)
    (src dst : Value) (block : BlockId) (i : nat) :
  walk module = before ++ op :: after ->
  sweep (target true) (orderByBenefit (patterns true))
        (map op_id before) module = Done (changed, reached) ->
  findOp (op_id op) reached = Some op ->
  op_name op = TensorStoreOp ->
  op_operands op = [src; dst] ->
  isa_UnrankedTensorType (val_type src) = true ->
  val_def dst = BlockArgument block i ->
  (forall p, In p (patterns true) -> pat_kind p = TensorStoreOp ->
             p = UnrankedTensorStoreTestOnlyPattern.pattern) ->
  isLegal (target true) op = Illegal /\
  (forall operands root,
      UnrankedTensorStoreTestOnlyPattern.matchAndRewrite op operands root
      = Undefined) /\
  legalizeOp (target true) (orderByBenefit (patterns true)) (op_id op) reached
    = Undefined /\
  applyPartialConversion (S fuel) module (target true) (patterns true)
    = Undefined /\
  run (S fuel) true module = Undefined.
Proof.
  intros Hwalk Hbefore Hfind Hkind Hops Hunranked Hdef Honly.
  assert (isLegal (target true) op = Illegal) as Hillegal.
  { rewrite passTarget_outside_shape_scf; [|by rewrite Hkind..].
    erewrite isLegal_dynamic; [|rewrite Hkind; apply rule_TensorStoreOp].
    unfold TensorStoreOp_tensorType. rewrite Hops. simpl.
    by rewrite Hunranked. }
  assert (forall operands root,
             UnrankedTensorStoreTestOnlyPattern.matchAndRewrite
               op operands root = Undefined) as Hpattern.
  { intros operands root.
    apply (store_null_destination op operands root dst).
    - by rewrite Hops.
    - unfold getDefiningOp. by rewrite Hdef. }
  assert (legalizeOp (target true) (orderByBenefit (patterns true))
                     (op_id op) reached = Undefined) as Hstep.
  { unfold legalizeOp. rewrite Hfind, Hillegal.
    apply (legalizePatterns_undefined
             _ UnrankedTensorStoreTestOnlyPattern.pattern).
    - intros p Hp Hp'. apply Honly; [by apply In_orderByBenefit|].
      by rewrite Hp'.
    - apply In_orderByBenefit.
      destruct (passPatterns_own true) as [others ->].
      apply in_or_app. right. by left.
    - unfold legalizeWithPattern. simpl pat_kind.
      rewrite bool_decide_eq_true_2 by done.
      unfold mbind, Rewriter_bind. simpl pat_converter.
      rewrite remapValues_no_converter. apply Hpattern. }
  assert (applyPartialConversion (S fuel) module (target true)
                                 (patterns true) = Undefined) as Hdriver.
  { unfold applyPartialConversion. simpl.
    rewrite Hwalk, map_app. simpl.
    by rewrite (sweep_reaches_undefined _ _ _ _ _ _ _ _ Hbefore Hstep). }
  repeat split; try done.
  by rewrite runPass_partial, Hdriver.
Qed.

(** C4: in full mode, when an operation is still illegal or unknown at
    the fixpoint the driver reports failure and the pass signals it; the
    module handed back is the module as rewritten up to the fixpoint, as
    the pass hands back whatever module the driver leaves.  Only the
    attempt of a single pattern is undone when it fails. *)
Theorem full_mode_failure_keeps_rewritten_module
    (fuel : nat) (module module' : Operation) :
  legalizeToFixpoint fuel (target false) (orderByBenefit (patterns false))
                     module = Done (tt, module') ->
  (exists o, In o (walk module') /\
             (isLegal (target false) o = Illegal \/
              isLegal (target false) o = Unknown)) ->
  applyFullConversion fuel module (target false) (patterns false)
    = Done (failure, module') /\
  run fuel false module = Done (mkPassResult true module') /\
  (forall partialConversion fullConversion result rewritten,
      fullConversion module (target false) (patterns false)
        = Done (result, rewritten) ->
      runWith partialConversion fullConversion false module
        = Done (mkPassResult (failed result) rewritten)) /\
  (forall ps op root,
      Forall (fun p => exists root',
                legalizeWithPattern p op root = Done (failure, root')) ps ->
      legalizePatterns ps op root = Done (false, root)).
Proof.
  intros Hrun (o & Ho & Hillegal).
  assert (allLegal (target false) module' = false) as Hnot.
  { unfold allLegal. apply not_true_is_false. rewrite forallb_forall.
    intros Hall. specialize (Hall o Ho).
    apply bool_decide_eq_true in Hall. destruct Hillegal; congruence. }
  assert (applyFullConversion fuel module (target false) (patterns false)
          = Done (failure, module')) as Hfull
    by (unfold applyFullConversion; by rewrite Hrun, Hnot).
  split; [exact Hfull|]. split; [|split].
  - by rewrite runPass_full, Hfull.
  - intros partialConversion fullConversion result rewritten Hdriver.
    by rewrite runOnOperation_forwards, Hdriver.
  - apply legalizePatterns_no_fire.
Qed.

End PassClaims.

(** ** The claims on the sample module *)

Lemma constant_and_select_legality_witness :
  isLegal (passTarget Sample.noPatterns Sample.noPatterns Sample.noPatterns
                      Sample.noPatterns Sample.noPatterns Sample.noPatterns
                      Sample.shapeLegality Sample.scfLegality true)
          Sample.scalarConstant = Legal /\
  isLegal (passTarget Sample.noPatterns Sample.noPatterns Sample.noPatterns
                      Sample.noPatterns Sample.noPatterns Sample.noPatterns
                      Sample.shapeLegality Sample.scfLegality false)
          Sample.tensorConstant ≠ Legal.
Proof.
  split.
  - apply (constant_and_select_legality
             Sample.noPatterns Sample.noPatterns Sample.noPatterns
             Sample.noPatterns Sample.noPatterns Sample.noPatterns
             Sample.shapeLegality Sample.scfLegality
             Sample_shapeLegality_is_local Sample_scfLegality_is_local
             true Sample.scalarConstant).
    + left. reflexivity.
    + discriminate.
    + reflexivity.
  - intros Hlegal.
    apply (constant_and_select_legality
             Sample.noPatterns Sample.noPatterns Sample.noPatterns
             Sample.noPatterns Sample.noPatterns Sample.noPatterns
             Sample.shapeLegality Sample.scfLegality
             Sample_shapeLegality_is_local Sample_scfLegality_is_local
             false Sample.tensorConstant) in Hlegal.
    + discriminate Hlegal.
    + left. reflexivity.
    + discriminate.
Defined.

Lemma bridging_casts_illegal_iff_not_partial_witness :
  isLegal (passTarget Sample.noPatterns Sample.noPatterns Sample.noPatterns
                      Sample.noPatterns Sample.noPatterns Sample.noPatterns
                      Sample.shapeLegality Sample.scfLegality true)
          Sample.load = Legal /\
  isLegal (passTarget Sample.noPatterns Sample.noPatterns Sample.noPatterns
                      Sample.noPatterns Sample.noPatterns Sample.noPatterns
                      Sample.shapeLegality Sample.scfLegality false)
          Sample.load = Illegal.
Proof.
  split.
  - apply (bridging_casts_illegal_iff_not_partial
             Sample.noPatterns Sample.noPatterns Sample.noPatterns
             Sample.noPatterns Sample.noPatterns Sample.noPatterns
             Sample.shapeLegality Sample.scfLegality
             Sample_shapeLegality_is_local Sample_scfLegality_is_local
             true BufferizeTypeConverter).
    left. reflexivity.
  - apply (bridging_casts_illegal_iff_not_partial
             Sample.noPatterns Sample.noPatterns Sample.noPatterns
             Sample.noPatterns Sample.noPatterns Sample.noPatterns
             Sample.shapeLegality Sample.scfLegality
             Sample_shapeLegality_is_local Sample_scfLegality_is_local
             false BufferizeTypeConverter).
    left. reflexivity.
Defined.

Lemma tensor_store_legality_witness :
  isLegal (passTarget Sample.noPatterns Sample.noPatterns Sample.noPatterns
                      Sample.noPatterns Sample.noPatterns Sample.noPatterns
                      Sample.shapeLegality Sample.scfLegality true)
          Sample.store = Illegal.
Proof.
  apply (tensor_store_legality
           Sample.noPatterns Sample.noPatterns Sample.noPatterns
           Sample.noPatterns Sample.noPatterns Sample.noPatterns
           Sample.shapeLegality Sample.scfLegality
           Sample_shapeLegality_is_local Sample_scfLegality_is_local
           true Sample.store Sample.arg0); reflexivity.
Defined.

Lemma function_legality_witness :
  isLegal (passTarget Sample.noPatterns Sample.noPatterns Sample.noPatterns
                      Sample.noPatterns Sample.noPatterns Sample.noPatterns
                      Sample.shapeLegality Sample.scfLegality false)
          Sample.legalFunc = Legal.
Proof.
  eapply (function_legality
            Sample.noPatterns Sample.noPatterns Sample.noPatterns
            Sample.noPatterns Sample.noPatterns Sample.noPatterns
            Sample.shapeLegality Sample.scfLegality
            Sample_shapeLegality_is_local Sample_scfLegality_is_local
            false Sample.legalFunc); try reflexivity.
  repeat split; intros t Ht; simpl in Ht;
    repeat (destruct Ht as [<- | Ht]; [reflexivity|]); contradiction.
Defined.

Lemma module_is_always_legal_witness :
  isLegal (passTarget Sample.noPatterns Sample.noPatterns Sample.noPatterns
                      Sample.noPatterns Sample.noPatterns Sample.noPatterns
                      Sample.shapeLegality Sample.scfLegality false)
          Sample.module = Legal.
Proof.
  apply (module_is_always_legal
           Sample.noPatterns Sample.noPatterns Sample.noPatterns
           Sample.noPatterns Sample.noPatterns Sample.noPatterns
           Sample.shapeLegality Sample.scfLegality
           Sample_shapeLegality_is_local Sample_scfLegality_is_local
           false Sample.module).
  left. reflexivity.
Defined.

(** In full mode the sample module ends up rewritten (the store and the
    call are gone, the return is rebuilt over a cast) and the pass fails. *)
Lemma full_mode_failure_keeps_rewritten_module_witness :
  exists module',
    runPass Sample.noPatterns Sample.noPatterns Sample.noPatterns
            Sample.noPatterns Sample.noPatterns Sample.noPatterns
            Sample.noLegality Sample.noLegality 3 false Sample.module
    = Done (mkPassResult true module') /\
    findOp (op_id Sample.store) module' = None /\
    module' ≠ Sample.module.
Proof.
  eexists. split; [|split].
  - eapply (full_mode_failure_keeps_rewritten_module
              Sample.noPatterns Sample.noPatterns Sample.noPatterns
              Sample.noPatterns Sample.noPatterns Sample.noPatterns
              Sample.noLegality Sample.noLegality 3 Sample.module).
    + vm_compute. reflexivity.
    + exists (mkOperation 4 DimOp [Sample.arg0] [Sample.index] None []).
      split; [vm_compute; tauto|].
      left. vm_compute. reflexivity.
  - vm_compute. reflexivity.
  - vm_compute. discriminate.
Defined.

(** The partial-mode run on the module that stores the tensor argument
    into the buffer argument: the driver passes the module and the function
    without a rewrite, and its step on the store is undefined. *)
Lemma partial_mode_is_undefined_on_a_store_into_a_block_argument_witness :
  In Sample.storeToArgument (walk Sample.moduleStoringToArgument) /\
  Examples.run 3 true Sample.moduleStoringToArgument = Undefined.
Proof.
  split; [vm_compute; tauto|].
  apply (partial_mode_is_undefined_on_a_store_into_a_block_argument
           Sample.noPatterns Sample.noPatterns Sample.noPatterns
           Sample.noPatterns Sample.noPatterns Sample.noPatterns
           Sample.shapeLegality Sample.scfLegality
           Sample_shapeLegality_is_local Sample_scfLegality_is_local
           2 Sample.moduleStoringToArgument Sample.storeToArgument
           [Sample.moduleStoringToArgument; Examples.funcStoringToArgument]
           [Sample.ret; Sample.terminator]
           false Sample.moduleStoringToArgument
           Sample.arg0 Sample.arg1 1 1).
  - reflexivity.
  - vm_compute. reflexivity.
  - reflexivity.
  - reflexivity.
  - reflexivity.
  - reflexivity.
  - reflexivity.
  - intros p [<- | [<- | []]]; [reflexivity | discriminate].
Defined.

(** C5, as stated, fails: the scalar constant built inside the [scf.if] is
    legal in both modes, yet it is not in the module the pass leaves, in
    either mode: the [scf.if] defines the destination of the unranked
    store, and the erasure fired on the store erases it with all it
    holds. *)
Lemma legal_constant_is_erased_with_the_destination :
  In Examples.nestedConstant (walk Examples.moduleWithNestedConstant) /\
  isLegal (Examples.target true) Examples.nestedConstant = Legal /\
  isLegal (Examples.target false) Examples.nestedConstant = Legal /\
  (exists r,
      Examples.run 3 true Examples.moduleWithNestedConstant = Done r /\
      findOp (op_id Examples.nestedConstant) (pass_module r) = None /\
      ~ remainsVerbatim Examples.nestedConstant (pass_module r)) /\
  (exists r,
      Examples.run 3 false Examples.moduleWithNestedConstant = Done r /\
      findOp (op_id Examples.nestedConstant) (pass_module r) = None /\
      ~ remainsVerbatim Examples.nestedConstant (pass_module r)).
Proof.
  split; [vm_compute; tauto|]. split; [vm_compute; reflexivity|].
  split; [vm_compute; reflexivity|].
  split;
    (eexists; split; [vm_compute; reflexivity|];
     split; [vm_compute; reflexivity|];
     unfold remainsVerbatim; vm_compute;
     intros H; repeat (destruct H as [H | H]; [discriminate H|]); exact H).
Qed.

(** On the sample module, with catalogs that contribute nothing, the
    function is illegal and no pattern matches it; every rewrite the run
    can commit keeps it in place and takes one pending rewrite away, so the
    run stops and the function is in the final IR verbatim. *)
Lemma partial_mode_never_signals_failure_witness :
  exists r,
    runPass Sample.noPatterns Sample.noPatterns Sample.noPatterns
            Sample.noPatterns Sample.noPatterns Sample.noPatterns
            Sample.noLegality Sample.noLegality 3 true Sample.module
    = Done r /\
    pass_failed r = false /\
    remainsVerbatim Sample.func (pass_module r).
Proof.
  destruct (partial_mode_never_signals_failure
              Sample.noPatterns Sample.noPatterns Sample.noPatterns
              Sample.noPatterns Sample.noPatterns Sample.noPatterns
              Sample.noLegality Sample.noLegality 3 Sample.module)
    as (_ & _ & _ & _ & _ & Hstops).
  apply (Hstops (fun root => In root Sample.reachable) Sample.pending
                Sample.func).
  - intros root op p HInv Hfind Hillegal Hp.
    apply findOp_In in Hfind.
    destruct Hp as [<- | [<- | []]];
      repeat (destruct HInv as [<- | HInv]; [|try contradiction]);
      vm_compute in Hfind;
      repeat (destruct Hfind as [<- | Hfind]; [|try contradiction]);
      try (exfalso; apply Hillegal; vm_compute; reflexivity);
      (eexists _, _; split; [vm_compute; reflexivity|]);
      intros Hfired; try discriminate Hfired;
      (split; [vm_compute; tauto | vm_compute; lia]).
  - intros root HInv.
    repeat (destruct HInv as [<- | HInv]; [vm_compute; tauto|]).
    contradiction.
  - left. reflexivity.
  - vm_compute. lia.
Defined.

(** * Further properties of the pass *)

(** ** The return adaptation pattern *)

Lemma op_id_insertBefore anchor new o :
  op_id (insertBefore anchor new o) = op_id o.
Proof. by destruct o. Qed.

Lemma op_result_types_insertBefore anchor new o :
  op_result_types (insertBefore anchor new o) = op_result_types o.
Proof. by destruct o. Qed.

Lemma opHeader_insertBefore anchor new o :
  opHeader (insertBefore anchor new o) = opHeader o.
Proof. by destruct o. Qed.

Lemma flat_map_flat_map {A B C} (f : A -> list B) (g : B -> list C)
    (l : list A) :
  flat_map g (flat_map f l) = flat_map (fun x => flat_map g (f x)) l.
Proof.
  induction l as [|x l IH]; simpl; [done|].
  by rewrite flat_map_app, IH.
Qed.

Lemma flat_map_ext_Forall {A B} (f g : A -> list B) (l : list A) :
  Forall (fun x => f x = g x) l -> flat_map f l = flat_map g l.
Proof. induction 1; simpl; congruence. Qed.

(** In the pre-order listing, the inserted operation comes right before
    every operation named by the anchor. *)
Lemma nestedOps_insertBefore anchor new o :
  nestedOps (insertBefore anchor new o)
  = flat_map (fun x => if bool_decide (op_id x = anchor)
                       then walk new ++ [insertBefore anchor new x]
                       else [insertBefore anchor new x])
             (nestedOps o).
Proof.
  induction o as [o IH] using Operation_tree_ind.
  destruct o as [id name operands rts ft regions]; unfold nestedOps in *.
  simpl in *. rewrite flat_map_flat_map.
  rewrite flat_map_concat_map, map_map, <- flat_map_concat_map.
  apply flat_map_ext_Forall.
  eapply Forall_impl; [exact IH|]. intros [bs] Hbs; simpl in *.
  rewrite flat_map_flat_map.
  rewrite flat_map_concat_map, map_map, <- flat_map_concat_map.
  apply flat_map_ext_Forall.
  eapply Forall_impl; [exact Hbs|]. intros [bid args ops] Hops; simpl in *.
  rewrite !flat_map_flat_map.
  rewrite (flat_map_concat_map _ (map _ ops)), map_map,
    <- flat_map_concat_map.
  apply flat_map_ext_Forall.
  eapply Forall_impl; [exact Hops|]. intros x Hx; simpl in *.
  rewrite op_id_insertBefore.
  assert (walk (insertBefore anchor new x)
          = insertBefore anchor new x
            :: flat_map (fun x0 => if bool_decide (op_id x0 = anchor)
                                   then walk new ++ [insertBefore anchor new x0]
                                   else [insertBefore anchor new x0])
                        (flat_map walkRegion (op_regions x))) as Hwalk.
  { rewrite <- Hx. by destruct x. }
  destruct x as [xid xname xoperands xrts xft xregions]; simpl in *.
  case_bool_decide; simpl; rewrite ?app_nil_r.
  - rewrite Hwalk. by rewrite <- app_assoc.
  - exact Hwalk.
Qed.

Lemma find_flat_map_pre {A} (p : A -> bool) (pre : A -> list A)
    (h : A -> A) (l : list A) :
  (forall x y, In y (pre x) -> p y = false) ->
  (forall x, p (h x) = p x) ->
  find p (flat_map (fun x => pre x ++ [h x]) l) = h <$> find p l.
Proof.
  intros Hpre Hh. induction l as [|x l IH]; simpl; [done|].
  rewrite <- app_assoc. simpl.
  assert (forall rest, find p (pre x ++ rest) = find p rest) as ->.
  { intros rest. pose proof (Hpre x) as Hx.
    induction (pre x) as [|y ys IHys]; simpl; [done|].
    rewrite (Hx y) by (by left). apply IHys. intros z Hz. apply Hx. by right. }
  simpl. rewrite Hh. by destruct (p x).
Qed.

Lemma lookupOp_insertBefore id anchor new root :
  op_regions new = [] ->
  op_id new ≠ id ->
  lookupOp id (insertBefore anchor new root)
  = insertBefore anchor new <$> lookupOp id root.
Proof.
  intros Hleaf Hnew. unfold lookupOp. rewrite nestedOps_insertBefore.
  rewrite (flat_map_ext _
             (fun x => (if bool_decide (op_id x = anchor) then [new] else [])
                       ++ [insertBefore anchor new x])).
  - apply find_flat_map_pre.
    + intros x y Hy. case_bool_decide; [|done].
      destruct Hy as [<- | []]. by apply bool_decide_eq_false.
    + intros x. by rewrite op_id_insertBefore.
  - intros x. case_bool_decide; [|done].
    destruct new; simpl in *. by rewrite Hleaf.
Qed.

Lemma walkKept_insertBefore anchor new o :
  op_regions new = [] ->
  op_id new ≠ anchor ->
  map opHeader (walkKept (fun i => bool_decide (i ≠ anchor))
                         (insertBefore anchor new o))
  = map opHeader (walkReplaced anchor new o).
Proof.
  intros Hleaf Hnew.
  induction o as [o IH] using Operation_tree_ind.
  destruct o as [id name operands rts ft regions]; simpl in *. f_equal.
  rewrite !flat_map_concat_map, !concat_map, !map_map. f_equal.
  apply map_ext_Forall'.
  eapply Forall_impl; [exact IH|]. intros [bs] Hbs; simpl in *.
  rewrite !flat_map_concat_map, !concat_map, !map_map. f_equal.
  apply map_ext_Forall'.
  eapply Forall_impl; [exact Hbs|]. intros [bid args ops] Hops; simpl in *.
  clear -Hops Hleaf Hnew.
  induction Hops as [|x ops Hx _ IHops]; [done|].
  cbn [map flat_map]. rewrite op_id_insertBefore.
  case_bool_decide as Hid.
  - rewrite flat_map_app, !map_app, IHops. f_equal.
    cbn [flat_map app map].
    rewrite (bool_decide_eq_true_2 (op_id new ≠ anchor)) by done.
    rewrite op_id_insertBefore, Hid.
    rewrite (bool_decide_eq_false_2 (anchor ≠ anchor)) by auto.
    rewrite app_nil_r. destruct new; simpl in *. by rewrite Hleaf.
  - rewrite flat_map_app, !map_app, IHops. f_equal.
    cbn [flat_map app map]. rewrite op_id_insertBefore.
    rewrite (bool_decide_eq_true_2 (op_id x ≠ anchor)) by done.
    by rewrite app_nil_r.
Qed.

Lemma freshId_above root o : In o (walk root) -> op_id o < freshId root.
Proof.
  unfold freshId. intros Ho. apply (in_map op_id) in Ho.
  induction (map op_id (walk root)) as [|i l IH]; simpl in *; [done|].
  destruct Ho as [-> | Ho]; [lia|]. specialize (IH Ho). lia.
Qed.

Lemma lookupOp_In id root o :
  lookupOp id root = Some o -> In o (nestedOps root) /\ op_id o = id.
Proof.
  unfold lookupOp. intros H. apply find_some in H as [Hin Hid].
  split; [done|]. by apply bool_decide_eq_true in Hid.
Qed.

Lemma nestedOps_walk root o : In o (nestedOps root) -> In o (walk root).
Proof. destruct root; simpl. unfold nestedOps; simpl. auto. Qed.

Lemma freshId_not_nested id root o :
  lookupOp id root = Some o -> freshId root ≠ id.
Proof.
  intros [Hin <-]%lookupOp_In. apply nestedOps_walk, freshId_above in Hin.
  lia.
Qed.

(** The module once the return [id] has given way to the return built over
    [operands]. *)
Lemma return_rewrite op operands root o :
  lookupOp (op_id op) root = Some o ->
  op_result_types o = [] ->
  ReturnOpTypeConversionPattern.matchAndRewrite op operands root
  = Done (success,
          eraseOps (fun i => bool_decide (i ≠ op_id op))
                   (insertBefore (op_id op) (newReturn root operands) root)).
Proof.
  intros Hfind Hres.
  pose proof (freshId_not_nested _ _ _ Hfind) as Hfresh.
  unfold ReturnOpTypeConversionPattern.matchAndRewrite, replaceOpWithNewOp,
    createOp, replaceOp, mbind, Rewriter_bind, mret, Rewriter_ret.
  rewrite Hfind. fold (newReturn root operands).
  rewrite lookupOp_insertBefore, Hfind by done. simpl.
  rewrite op_result_types_insertBefore, Hres. simpl.
  do 3 f_equal.
  rewrite (mapOperands_ext _ (fun v => v)) by apply substResult_nil.
  apply mapOperands_id.
Qed.

Lemma walkReplaced_lists_new anchor new o x :
  In x (nestedOps o) ->
  op_id x = anchor ->
  In new (flat_map (walkReplacedRegion anchor new) (op_regions o)).
Proof.
  revert x. induction o as [o IH] using Operation_tree_ind.
  intros x Hx Hid. unfold nestedOps in Hx.
  apply in_flat_map in Hx as (r & Hr & Hx).
  apply in_flat_map. exists r. split; [done|].
  rewrite Forall_forall in IH. specialize (IH r (proj2 (list_elem_of_In _ _) Hr)).
  destruct r as [bs]; simpl in *.
  apply in_flat_map in Hx as (b & Hb & Hx).
  apply in_flat_map. exists b. split; [done|].
  rewrite Forall_forall in IH. specialize (IH b (proj2 (list_elem_of_In _ _) Hb)).
  destruct b as [bid args ops]; simpl in *.
  apply in_flat_map in Hx as (y & Hy & Hx).
  apply in_flat_map. exists y. split; [done|].
  rewrite Forall_forall in IH. specialize (IH y (proj2 (list_elem_of_In _ _) Hy)).
  case_bool_decide as Hyid; [by left|].
  destruct y as [yid yname yoperands yrts yft yregions]; simpl in *.
  destruct Hx as [<- | Hx]; [done|]. right. by apply (IH x).
Qed.

(** The rebuilt return is listed in the module after the rewrite. *)
Lemma return_rewrite_lists_new op operands root o :
  lookupOp (op_id op) root = Some o ->
  op_result_types o = [] ->
  exists new,
    In new (walk (eraseOps (fun i => bool_decide (i ≠ op_id op))
                    (insertBefore (op_id op) (newReturn root operands) root)))
    /\ opHeader new = newReturn root operands.
Proof.
  intros Hfind Hres.
  pose proof (freshId_not_nested _ _ _ Hfind) as Hfresh.
  assert (In (opHeader (newReturn root operands))
             (map opHeader
                (walk (eraseOps (fun i => bool_decide (i ≠ op_id op))
                         (insertBefore (op_id op) (newReturn root operands)
                                       root))))) as Hin.
  { rewrite walk_eraseOps, map_map.
    rewrite (map_ext _ opHeader) by apply opHeader_eraseOps.
    rewrite walkKept_insertBefore by done.
    apply in_map. destruct (lookupOp_In _ _ _ Hfind) as [Hin Hid].
    assert (walkReplaced (op_id op) (newReturn root operands) root
            = root :: flat_map (walkReplacedRegion (op_id op)
                                  (newReturn root operands))
                               (op_regions root)) as ->
      by (by destruct root).
    right. by apply (walkReplaced_lists_new _ _ _ o). }
  apply in_map_iff in Hin as (new & Hheader & Hin). by exists new.
Qed.

(** X1: fired on an operation of the module that has no results, the
    return adaptation reports success and leaves the module with the same
    operations in the same order, except that the operation has given way
    to a new return over the operands the pattern was handed; nothing else
    is rewired, retyped or erased. *)
Theorem return_adaptation_rebuilds_the_return
    (op : Operation) (operands : list Value) (root o : Operation) :
  lookupOp (op_id op) root = Some o ->
  op_result_types o = [] ->
  exists root',
    ReturnOpTypeConversionPattern.matchAndRewrite op operands root
      = Done (success, root') /\
    map opHeader (walk root')
      = map opHeader (walkReplaced (op_id op) (newReturn root operands) root) /\
    In (newReturn root operands) (map opHeader (walk root')) /\
    (forall x, In x (walk root) -> op_id x ≠ op_id (newReturn root operands)) /\
    (forall x, In x (nestedOps root') -> op_id x ≠ op_id op).
Proof.
  intros Hfind Hres.
  pose proof (freshId_not_nested _ _ _ Hfind) as Hfresh.
  assert (map opHeader
            (walk (eraseOps (fun i => bool_decide (i ≠ op_id op))
                     (insertBefore (op_id op) (newReturn root operands) root)))
          = map opHeader
              (walkReplaced (op_id op) (newReturn root operands) root))
    as Hheaders.
  { rewrite walk_eraseOps, map_map.
    rewrite (map_ext _ opHeader) by apply opHeader_eraseOps.
    by apply walkKept_insertBefore. }
  eexists. split; [by eapply return_rewrite|].
  split; [exact Hheaders|]. split; [|split].
  - rewrite Hheaders.
    change (newReturn root operands)
      with (opHeader (newReturn root operands)) at 1.
    apply in_map. destruct (lookupOp_In _ _ _ Hfind) as [Hin Hid].
    assert (walkReplaced (op_id op) (newReturn root operands) root
            = root :: flat_map (walkReplacedRegion (op_id op)
                                  (newReturn root operands))
                               (op_regions root)) as ->
      by (by destruct root).
    right. by apply (walkReplaced_lists_new _ _ _ o).
  - intros x Hx%freshId_above. simpl. lia.
  - intros x Hx%nestedOps_erased_kept. by apply bool_decide_eq_true in Hx.
Qed.

Lemma return_adaptation_rebuilds_the_return_witness :
  exists root',
    ReturnOpTypeConversionPattern.matchAndRewrite
      Sample.ret [Sample.arg1] Sample.module = Done (success, root') /\
    In (mkOperation 7 ReturnOp [Sample.arg1] [] None [])
       (map opHeader (walk root')).
Proof.
  destruct (return_adaptation_rebuilds_the_return
              Sample.ret [Sample.arg1] Sample.module Sample.ret)
    as (root' & Hfire & _ & Hnew & _); [reflexivity..|].
  by exists root'.
Defined.

(** X2: the return adaptation has no match condition.  It never reports
    no-match, and on every operation of the module that has no results it
    fires, whatever the operands it is handed, be the operation a return
    that is legal already; each firing changes the module, as the return it
    builds has an identity that no operation had. *)
Theorem return_adaptation_matches_unconditionally
    (op : Operation) (operands : list Value) (root : Operation) :
  (forall r root',
      ReturnOpTypeConversionPattern.matchAndRewrite op operands root
        = Done (r, root') -> r = success) /\
  (forall o,
      lookupOp (op_id op) root = Some o ->
      op_result_types o = [] ->
      exists root',
        ReturnOpTypeConversionPattern.matchAndRewrite op operands root
          = Done (success, root') /\
        (exists new, In new (walk root') /\
                     opHeader new = newReturn root operands) /\
        root' ≠ root).
Proof.
  split.
  - intros r root'.
    unfold ReturnOpTypeConversionPattern.matchAndRewrite, replaceOpWithNewOp,
      createOp, replaceOp, mbind, Rewriter_bind, mret, Rewriter_ret.
    destruct (lookupOp (op_id op) root); [|discriminate].
    destruct (lookupOp _ (insertBefore _ _ _)); [|discriminate].
    destruct (bool_decide _); [|discriminate]. congruence.
  - intros o Hfind Hres.
    destruct (return_rewrite_lists_new op operands root o Hfind Hres)
      as (new & Hnew & Hheader).
    eexists. split; [by eapply return_rewrite|].
    split; [by exists new|].
    intros Heq. rewrite Heq in Hnew. apply freshId_above in Hnew.
    assert (op_id new = freshId root) as Hid.
    { transitivity (op_id (opHeader new)); [by destruct new|].
      by rewrite Hheader. }
    lia.
Qed.

Lemma return_adaptation_matches_unconditionally_witness :
  typesAreLegal BufferizeTypeConverter
    (mkOperation 3 ReturnOp [] [] None []) = true /\
  exists root',
    ReturnOpTypeConversionPattern.matchAndRewrite
      (mkOperation 3 ReturnOp [] [] None []) [] Sample.legalModule
      = Done (success, root') /\
    root' ≠ Sample.legalModule.
Proof.
  split; [reflexivity|].
  destruct (proj2 (return_adaptation_matches_unconditionally
                     (mkOperation 3 ReturnOp [] [] None []) []
                     Sample.legalModule)
                  (mkOperation 3 ReturnOp [] [] None []))
    as (root' & Hfire & _ & Hchanged); [reflexivity..|].
  by exists root'.
Defined.

(** ** The legality configuration, kind by kind *)

Lemma rules_outside_dynamicKinds b c (n : OperationName) :
  n ∉ dynamicKinds ->
  dynamicRules (configureTarget b c) !! n = None.
Proof.
  intros Hn. unfold configureTarget, addDynamicallyLegalOp.
  destruct b; cbn [negb foldr dynamicRules emptyTarget];
    repeat (rewrite lookup_insert_ne
              by (intros <-; apply Hn; unfold dynamicKinds;
                  repeat first [apply list_elem_of_here
                               | apply list_elem_of_further]));
    apply lookup_empty.
Qed.

Lemma rule_typeChecked b c (n : OperationName) :
  n ∈ typeCheckedKinds ->
  dynamicRules (configureTarget b c) !! n = Some (typesAreLegal c).
Proof.
  unfold typeCheckedKinds. rewrite !elem_of_cons, elem_of_nil.
  intros [-> | [-> | [-> | [-> | [-> | [-> | []]]]]]]; lookup_rule.
Qed.

Lemma dynamicRules_mode c :
  dynamicRules (configureTarget true c) = dynamicRules (configureTarget false c).
Proof. reflexivity. Qed.

Lemma illegalOps_spec b c (n : OperationName) :
  n ∈ illegalOps (configureTarget b c) <->
  n ∈ alwaysIllegalKinds \/ (b = false /\ n ∈ bridgingKinds).
Proof.
  unfold configureTarget.
  cbv beta zeta iota delta [addDynamicallyLegalOp illegalOps].
  destruct b; cbn [negb]; unfold addIllegalOp, addIllegalDialect, addLegalOp,
    addLegalDialect, emptyTarget; cbn [illegalOps];
    rewrite ?elem_of_union, !elem_of_list_to_set, elem_of_empty;
    unfold alwaysIllegalKinds, bridgingKinds; intuition congruence.
Qed.

Lemma illegalDialects_spec b c (d : string) :
  d ∈ illegalDialects (configureTarget b c) <-> d = MhloDialect.
Proof.
  unfold configureTarget.
  cbv beta zeta iota delta [addDynamicallyLegalOp illegalDialects].
  destruct b; cbn [negb]; unfold addIllegalOp, addIllegalDialect, addLegalOp,
    addLegalDialect, emptyTarget; cbn [illegalDialects];
    rewrite elem_of_union, elem_of_list_to_set, elem_of_empty,
      elem_of_cons, elem_of_nil; intuition congruence.
Qed.

Lemma legalOps_spec b c (n : OperationName) :
  n ∈ legalOps (configureTarget b c) <->
  n = ModuleOp \/ n = ModuleTerminatorOp.
Proof.
  unfold configureTarget.
  cbv beta zeta iota delta [addDynamicallyLegalOp legalOps].
  destruct b; cbn [negb]; unfold addIllegalOp, addIllegalDialect, addLegalOp,
    addLegalDialect, emptyTarget; cbn [legalOps];
    rewrite elem_of_union, elem_of_list_to_set, elem_of_empty,
      !elem_of_cons, elem_of_nil; intuition congruence.
Qed.

Lemma legalDialects_spec b c (d : string) :
  d ∈ legalDialects (configureTarget b c) <-> d ∈ legalDialectNames.
Proof.
  unfold configureTarget.
  cbv beta zeta iota delta [addDynamicallyLegalOp legalDialects].
  destruct b; cbn [negb]; unfold addIllegalOp, addIllegalDialect, addLegalOp,
    addLegalDialect, emptyTarget; cbn [legalDialects];
    rewrite elem_of_union, elem_of_list_to_set, elem_of_empty;
    intuition congruence.
Qed.

(** The classification of a kind without a dynamic predicate. *)
Lemma isLegal_configure_static b c op :
  op_name op ∉ dynamicKinds ->
  isLegal (configureTarget b c) op
  = if bool_decide (op_name op ∈ alwaysIllegalKinds \/
                    (b = false /\ op_name op ∈ bridgingKinds) \/
                    getDialect (op_name op) = MhloDialect)
    then Illegal
    else if bool_decide (op_name op = ModuleOp \/
                         op_name op = ModuleTerminatorOp \/
                         getDialect (op_name op) ∈ legalDialectNames)
    then Legal else Unknown.
Proof.
  intros Hn. unfold isLegal. rewrite rules_outside_dynamicKinds by done.
  pose proof (illegalOps_spec b c (op_name op)) as H1.
  pose proof (illegalDialects_spec b c (getDialect (op_name op))) as H2.
  pose proof (legalOps_spec b c (op_name op)) as H3.
  pose proof (legalDialects_spec b c (getDialect (op_name op))) as H4.
  repeat case_bool_decide; simpl; try reflexivity; exfalso; tauto.
Qed.

Lemma Bufferize_typesAreLegal_existsb op :
  typesAreLegal BufferizeTypeConverter op
  = negb (existsb isa_TensorType (getOperandTypes op ++ getResultTypes op)).
Proof.
  unfold typesAreLegal. rewrite !Bufferize_isLegalTypes. unfold none_of.
  rewrite existsb_app. by destruct (existsb _ _), (existsb _ _).
Qed.

Lemma existsb_false_forall {A} (p : A -> bool) (l : list A) :
  existsb p l = false <-> forall x, In x l -> p x = false.
Proof.
  induction l as [|y l IH]; simpl; [intuition|].
  rewrite orb_false_iff, IH. split.
  - intros [Hy Hl] x [<- | Hx]; auto.
  - intros H. split; [apply H; by left|]. intros x Hx. apply H. by right.
Qed.

Lemma Bufferize_typesAreLegal op :
  (typesAreLegal BufferizeTypeConverter op = true <->
   forall t, In t (getOperandTypes op ++ getResultTypes op) ->
             isa_TensorType t = false) /\
  (typesAreLegal BufferizeTypeConverter op = false <->
   exists t, In t (getOperandTypes op ++ getResultTypes op) /\
             isa_TensorType t = true).
Proof.
  rewrite Bufferize_typesAreLegal_existsb.
  rewrite negb_true_iff, negb_false_iff, existsb_false_forall, existsb_exists.
  done.
Qed.

Lemma legal_or_illegal (ok : bool) (P Q : Prop) :
  (ok = true <-> P) -> (ok = false <-> Q) ->
  ((if ok then Legal else Illegal) = Legal <-> P) /\
  ((if ok then Legal else Illegal) = Illegal <-> Q).
Proof. destruct ok; intuition discriminate. Qed.

Lemma isLegal_mode_independent c op :
  ~ In (op_name op) bridgingKinds ->
  isLegal (configureTarget true c) op = isLegal (configureTarget false c) op.
Proof.
  intros Hkind. unfold isLegal. rewrite dynamicRules_mode.
  destruct (dynamicRules (configureTarget false c) !! op_name op); [done|].
  assert (bool_decide (op_name op ∈ illegalOps (configureTarget true c))
          = bool_decide (op_name op ∈ illegalOps (configureTarget false c)))
    as ->.
  { apply bool_decide_ext. rewrite !illegalOps_spec.
    rewrite <- list_elem_of_In in Hkind. intuition congruence. }
  assert (bool_decide (getDialect (op_name op)
                         ∈ illegalDialects (configureTarget true c))
          = bool_decide (getDialect (op_name op)
                           ∈ illegalDialects (configureTarget false c)))
    as -> by (apply bool_decide_ext; by rewrite !illegalDialects_spec).
  assert (bool_decide (op_name op ∈ legalOps (configureTarget true c))
          = bool_decide (op_name op ∈ legalOps (configureTarget false c)))
    as -> by (apply bool_decide_ext; by rewrite !legalOps_spec).
  assert (bool_decide (getDialect (op_name op)
                         ∈ legalDialects (configureTarget true c))
          = bool_decide (getDialect (op_name op)
                           ∈ legalDialects (configureTarget false c)))
    as -> by (apply bool_decide_ext; by rewrite !legalDialects_spec).
  reflexivity.
Qed.

Section PassExtras.

Variable populateHLOToLHLOConversionPattern :
  TypeConverter -> OwningRewritePatternList -> OwningRewritePatternList.
Variable populateFuncOpTypeConversionPattern :
  TypeConverter -> OwningRewritePatternList -> OwningRewritePatternList.
Variable populateCallOpTypeConversionPattern :
  TypeConverter -> OwningRewritePatternList -> OwningRewritePatternList.
Variable populateStdBufferizePatterns :
  TypeConverter -> OwningRewritePatternList -> OwningRewritePatternList.
Variable populateEliminateBufferizeMaterializationsPatterns :
  TypeConverter -> OwningRewritePatternList -> OwningRewritePatternList.
Variable populateExtraStdBufferizePattern :
  TypeConverter -> OwningRewritePatternList -> OwningRewritePatternList.
Variable populateShapeStructuralTypeConversionsAndLegality :
  TypeConverter -> OwningRewritePatternList -> ConversionTarget ->
  OwningRewritePatternList * ConversionTarget.
Variable populateSCFStructuralTypeConversionsAndLegality :
  TypeConverter -> OwningRewritePatternList -> ConversionTarget ->
  OwningRewritePatternList * ConversionTarget.

(** As before, the shape and SCF contributions only decide the legality of
    the operations of their own dialect. *)
Hypothesis shape_legality_is_local : forall converter patterns target op,
  getDialect (op_name op) ≠ ShapeDialect ->
  isLegal (populateShapeStructuralTypeConversionsAndLegality
             converter patterns target).2 op
  = isLegal target op.

Hypothesis scf_legality_is_local : forall converter patterns target op,
  getDialect (op_name op) ≠ SCFDialect ->
  isLegal (populateSCFStructuralTypeConversionsAndLegality
             converter patterns target).2 op
  = isLegal target op.

Local Abbreviation target :=
  (passTarget populateHLOToLHLOConversionPattern
     populateFuncOpTypeConversionPattern
     populateCallOpTypeConversionPattern
     populateStdBufferizePatterns
     populateEliminateBufferizeMaterializationsPatterns
     populateExtraStdBufferizePattern
     populateShapeStructuralTypeConversionsAndLegality
     populateSCFStructuralTypeConversionsAndLegality).

Lemma target_is_configured b op :
  getDialect (op_name op) ≠ ShapeDialect ->
  getDialect (op_name op) ≠ SCFDialect ->
  isLegal (target b) op
  = isLegal (configureTarget b BufferizeTypeConverter) op.
Proof.
  apply passTarget_outside_shape_scf;
    [exact shape_legality_is_local | exact scf_legality_is_local].
Qed.

Lemma typeChecked_rule b op :
  In (op_name op) typeCheckedKinds ->
  isLegal (target b) op
  = if typesAreLegal BufferizeTypeConverter op then Legal else Illegal.
Proof.
  intros Hkind.
  assert (getDialect (op_name op) = StandardOpsDialect) as Hstd.
  { simpl in Hkind.
    destruct Hkind as [<- | [<- | [<- | [<- | [<- | [<- | []]]]]]];
      reflexivity. }
  rewrite target_is_configured by (rewrite Hstd; discriminate).
  apply isLegal_dynamic, rule_typeChecked. by apply list_elem_of_In.
Qed.

(** X3: the return that the adaptation builds is legal, in either mode,
    exactly when none of the operands it was handed has a tensor type, and
    illegal otherwise: handed unconverted operands, the pattern leaves an
    operation it matches again. *)
Theorem return_adaptation_result_legality
    (allow_partial_bufferization_ : bool)
    (op : Operation) (operands : list Value) (root o : Operation) :
  lookupOp (op_id op) root = Some o ->
  op_result_types o = [] ->
  exists root' new,
    ReturnOpTypeConversionPattern.matchAndRewrite op operands root
      = Done (success, root') /\
    In new (walk root') /\
    opHeader new = newReturn root operands /\
    (isLegal (target allow_partial_bufferization_) new = Legal <->
     forall v, In v operands -> isa_TensorType (val_type v) = false) /\
    (isLegal (target allow_partial_bufferization_) new = Illegal <->
     exists v, In v operands /\ isa_TensorType (val_type v) = true).
Proof.
  intros Hfind Hres.
  destruct (return_rewrite_lists_new op operands root o Hfind Hres)
    as (new & Hin & Hheader).
  eexists _, new. split; [by eapply return_rewrite|].
  split; [exact Hin|]. split; [exact Hheader|].
  assert (op_name new = ReturnOp /\ op_operands new = operands /\
          op_result_types new = []) as (Hname & Hoperands & Hresults).
  { unfold opHeader, newReturn in Hheader. destruct new; simpl in *.
    by injection Hheader as _ -> -> -> _. }
  rewrite typeChecked_rule
    by (rewrite Hname; simpl; tauto).
  destruct (Bufferize_typesAreLegal new) as [Hlegal Hillegal].
  unfold getOperandTypes, getResultTypes in Hlegal, Hillegal.
  rewrite Hoperands, Hresults, app_nil_r in Hlegal, Hillegal.
  apply legal_or_illegal.
  - rewrite Hlegal. split.
    + intros Hall v Hv. apply Hall. by apply in_map.
    + intros Hall t (v & <- & Hv)%in_map_iff. auto.
  - rewrite Hillegal. split.
    + intros (t & (v & <- & Hv)%in_map_iff & Ht). eauto.
    + intros (v & Hv & Ht). exists (val_type v). split; [|done].
      by apply in_map.
Qed.

(** X4: a call, constant, dim, rank, select or return operation is legal,
    in either mode, exactly when none of its operand types and none of its
    result types is a tensor type, and illegal otherwise. *)
Theorem type_checked_kinds_legality
    (allow_partial_bufferization_ : bool) (op : Operation) :
  In (op_name op) typeCheckedKinds ->
  (isLegal (target allow_partial_bufferization_) op = Legal <->
   forall t, In t (getOperandTypes op ++ getResultTypes op) ->
             isa_TensorType t = false) /\
  (isLegal (target allow_partial_bufferization_) op = Illegal <->
   exists t, In t (getOperandTypes op ++ getResultTypes op) /\
             isa_TensorType t = true).
Proof.
  intros Hkind. rewrite typeChecked_rule by done.
  destruct (Bufferize_typesAreLegal op) as [Hlegal Hillegal].
  by apply legal_or_illegal.
Qed.

Lemma static_rule b op :
  ~ In (op_name op) dynamicKinds ->
  getDialect (op_name op) ≠ ShapeDialect ->
  getDialect (op_name op) ≠ SCFDialect ->
  isLegal (target b) op
  = if bool_decide (op_name op ∈ alwaysIllegalKinds \/
                    (b = false /\ op_name op ∈ bridgingKinds) \/
                    getDialect (op_name op) = MhloDialect)
    then Illegal
    else if bool_decide (op_name op = ModuleOp \/
                         op_name op = ModuleTerminatorOp \/
                         getDialect (op_name op) ∈ legalDialectNames)
    then Legal else Unknown.
Proof.
  intros Hkind Hshape Hscf. rewrite target_is_configured by done.
  apply isLegal_configure_static. by rewrite list_elem_of_In.
Qed.

Lemma dialect_not_dynamic (n : OperationName) :
  getDialect n ≠ StandardOpsDialect ->
  n ≠ FuncOp ->
  ~ In n dynamicKinds.
Proof.
  intros Hstd Hfunc Hin. simpl in Hin.
  destruct Hin as [<- | [<- | [<- | [<- | [<- | [<- | [<- | [<- | []]]]]]]]];
    first [by apply Hstd | by apply Hfunc].
Qed.

(** X5: every operation of the MHLO dialect is illegal, in either mode and
    whatever its kind and types. *)
Theorem mhlo_operations_are_illegal
    (allow_partial_bufferization_ : bool) (op : Operation) :
  getDialect (op_name op) = MhloDialect ->
  isLegal (target allow_partial_bufferization_) op = Illegal.
Proof.
  intros Hdialect.
  rewrite static_rule.
  - rewrite bool_decide_eq_true_2; [done|]. by right; right.
  - apply dialect_not_dynamic.
    + rewrite Hdialect. discriminate.
    + intros Hfunc. rewrite Hfunc in Hdialect. discriminate.
  - rewrite Hdialect. discriminate.
  - rewrite Hdialect. discriminate.
Qed.

(** X6: the four tensor-building kinds of the Standard dialect are illegal
    in either mode and whatever their types, although their dialect is
    registered legal. *)
Theorem tensor_building_kinds_are_illegal
    (allow_partial_bufferization_ : bool) (op : Operation) :
  In (op_name op) alwaysIllegalKinds ->
  isLegal (target allow_partial_bufferization_) op = Illegal /\
  getDialect (op_name op)
    ∈ legalDialects (configureTarget allow_partial_bufferization_
                                     BufferizeTypeConverter).
Proof.
  intros Hkind.
  assert (getDialect (op_name op) = StandardOpsDialect /\
          ~ In (op_name op) dynamicKinds) as [Hstd Hstatic].
  { simpl in Hkind. destruct Hkind as [<- | [<- | [<- | [<- | []]]]];
      (split; [reflexivity|]); simpl; intuition discriminate. }
  split.
  - rewrite static_rule; [|done|rewrite Hstd; discriminate..].
    rewrite bool_decide_eq_true_2; [done|]. left. by apply list_elem_of_In.
  - apply legalDialects_spec. rewrite Hstd.
    apply list_elem_of_In. simpl. tauto.
Qed.

(** X7: every operation of the TF framework, affine and LMHLO dialects is
    legal, in either mode and whatever its kind and types. *)
Theorem buffer_dialects_are_legal
    (allow_partial_bufferization_ : bool) (op : Operation) :
  In (getDialect (op_name op))
     [TFFrameworkDialect; AffineDialect; LmhloDialect] ->
  isLegal (target allow_partial_bufferization_) op = Legal.
Proof.
  intros Hdialect.
  assert (getDialect (op_name op) ≠ StandardOpsDialect /\
          getDialect (op_name op) ≠ ShapeDialect /\
          getDialect (op_name op) ≠ SCFDialect /\
          getDialect (op_name op) ≠ MhloDialect /\
          getDialect (op_name op) ≠ "" /\
          getDialect (op_name op) ∈ legalDialectNames)
    as (Hstd & Hshape & Hscf & Hmhlo & Hbuiltin & Hlegal).
  { simpl in Hdialect. destruct Hdialect as [<- | [<- | [<- | []]]];
      repeat split; try discriminate; apply list_elem_of_In; simpl; tauto. }
  rewrite static_rule; [|apply dialect_not_dynamic|..]; try done.
  - rewrite bool_decide_eq_false_2.
    + rewrite bool_decide_eq_true_2; [done|]. by right; right.
    + rewrite !list_elem_of_In. simpl.
      intros [Hin | [[_ Hin] | Hin]]; [| |done];
        repeat (destruct Hin as [Hin | Hin];
                [rewrite <- Hin in Hstd; by apply Hstd|]); done.
  - intros Hfunc. rewrite Hfunc in Hbuiltin. by apply Hbuiltin.
Qed.

(** X8: a Standard operation of a kind the pass does not name is legal, in
    either mode and whatever its types, tensors included. *)
Theorem unnamed_standard_kinds_are_legal
    (allow_partial_bufferization_ : bool) (op : Operation) :
  getDialect (op_name op) = StandardOpsDialect ->
  ~ In (op_name op) (alwaysIllegalKinds ++ bridgingKinds ++ dynamicKinds) ->
  isLegal (target allow_partial_bufferization_) op = Legal.
Proof.
  intros Hstd Hunnamed.
  rewrite !in_app_iff in Hunnamed.
  rewrite static_rule; [|tauto|rewrite Hstd; discriminate..].
  rewrite bool_decide_eq_false_2.
  - rewrite bool_decide_eq_true_2; [done|]. right; right.
    rewrite Hstd. apply list_elem_of_In. simpl. tauto.
  - rewrite !list_elem_of_In, Hstd. intros [? | [[_ ?] | ?]];
      [tauto | tauto | discriminate].
Qed.

(** X9: an operation of a dialect the pass registers neither legal nor
    illegal, other than the module, its terminator and a function, is
    classified unknown in either mode. *)
Theorem unregistered_dialects_are_unknown
    (allow_partial_bufferization_ : bool) (op : Operation) :
  ~ In (getDialect (op_name op)) (MhloDialect :: legalDialectNames) ->
  ~ In (op_name op) [ModuleOp; ModuleTerminatorOp; FuncOp] ->
  isLegal (target allow_partial_bufferization_) op = Unknown.
Proof.
  intros Hdialect Hkind. simpl in Hdialect, Hkind.
  rewrite static_rule.
  - rewrite bool_decide_eq_false_2.
    + rewrite bool_decide_eq_false_2; [done|].
      rewrite list_elem_of_In. simpl. intuition congruence.
    + rewrite !list_elem_of_In. simpl.
      intros [Hin | [[_ Hin] | Hin]]; [| |intuition congruence];
        repeat (destruct Hin as [Hin | Hin];
                [rewrite <- Hin in Hdialect; simpl in Hdialect; tauto|]);
        done.
  - apply dialect_not_dynamic; intuition congruence.
  - intuition congruence.
  - intuition congruence.
Qed.

(** X10: the mode changes the classification of the two bridging casts
    only; every other operation is classified alike in both modes, and
    whatever is legal in full mode is legal in partial mode. *)
Theorem mode_only_affects_the_bridging_casts (op : Operation) :
  getDialect (op_name op) ≠ ShapeDialect ->
  getDialect (op_name op) ≠ SCFDialect ->
  (~ In (op_name op) bridgingKinds ->
   isLegal (target true) op = isLegal (target false) op) /\
  (isLegal (target false) op = Legal -> isLegal (target true) op = Legal).
Proof.
  intros Hshape Hscf. rewrite !target_is_configured by done.
  split; [apply isLegal_mode_independent|].
  intros Hlegal.
  destruct (decide (op_name op ∈ bridgingKinds)) as [Hkind | Hkind].
  - exfalso. revert Hlegal.
    rewrite isLegal_configure_static.
    + rewrite bool_decide_eq_true_2; [discriminate|]. right. by left.
    + unfold bridgingKinds in Hkind.
      rewrite !elem_of_cons, elem_of_nil in Hkind.
      rewrite list_elem_of_In. simpl.
      destruct Hkind as [-> | [-> | []]]; intuition discriminate.
  - rewrite isLegal_mode_independent; [done|]. by rewrite <- list_elem_of_In.
Qed.



End PassExtras.

(** ** The dependent dialects *)

(** X11: [getDependentDialects] keeps what the registry held and adds the
    affine, SCF, shape, TF framework and LMHLO dialects, nothing else; each
    of the five is in the registry it hands back, whatever the registry
    held, and is a dialect the pass registers legal and does not register
    illegal, in either mode. *)
Theorem dependent_dialects_are_legal
    (registry : DialectRegistry) (allow_partial_bufferization_ : bool)
    (converter : TypeConverter) (d : string) :
  (d ∈ getDependentDialects registry <->
   d ∈ registry \/
   In d [AffineDialect; SCFDialect; ShapeDialect; TFFrameworkDialect;
         LmhloDialect]) /\
  (In d [AffineDialect; SCFDialect; ShapeDialect; TFFrameworkDialect;
         LmhloDialect] ->
   d ∈ getDependentDialects registry /\
   d ∈ legalDialects (configureTarget allow_partial_bufferization_ converter)
   /\
   (d ∉ illegalDialects (configureTarget allow_partial_bufferization_
                                         converter))).
Proof.
  assert (d ∈ getDependentDialects registry <->
          d ∈ registry \/
          In d [AffineDialect; SCFDialect; ShapeDialect; TFFrameworkDialect;
                LmhloDialect]) as Hspec.
  { unfold getDependentDialects, registryInsert.
    rewrite elem_of_union, elem_of_list_to_set, list_elem_of_In. tauto. }
  split; [exact Hspec|]. intros Hd.
  split; [apply Hspec; by right|].
  rewrite legalDialects_spec, illegalDialects_spec.
  unfold legalDialectNames. rewrite !elem_of_cons, elem_of_nil.
  simpl in Hd.
  destruct Hd as [<- | [<- | [<- | [<- | [<- | []]]]]];
    (split; [tauto | intuition discriminate]).
Qed.

(** ** More on the unranked-store erasure pattern *)

Lemma flat_map_filter_bound {A B} (f g : A -> list B) (p : B -> bool)
    (l : list A) :
  Forall (fun x => length (f x) + length (List.filter p (g x))
                   <= length (g x)) l ->
  length (flat_map f l) + length (List.filter p (flat_map g l))
  <= length (flat_map g l).
Proof.
  induction 1 as [|x l Hx _ IH]; simpl; [lia|].
  rewrite List.filter_app, !length_app. lia.
Qed.

(** The operations that are skipped are not listed. *)
Lemma walkKept_bound keep o :
  length (walkKept keep o)
  + length (List.filter (fun x => negb (keep (op_id x))) (nestedOps o))
  <= length (walk o).
Proof.
  induction o as [o IH] using Operation_tree_ind.
  destruct o as [id name operands rts ft regions]; unfold nestedOps in *.
  simpl in *. apply le_n_S.
  apply (flat_map_filter_bound (walkKeptRegion keep) walkRegion).
  eapply Forall_impl; [exact IH|]. intros [bs] Hbs; simpl in *.
  apply (flat_map_filter_bound (walkKeptBlock keep) walkBlock).
  eapply Forall_impl; [exact Hbs|]. intros [bid args ops] Hops; simpl in *.
  apply (flat_map_filter_bound
           (fun o => if keep (op_id o) then walkKept keep o else []) walk).
  eapply Forall_impl; [exact Hops|]. intros x Hx; simpl in *.
  destruct x as [xid xname xoperands xrts xft xregions]; simpl in *.
  destruct (keep xid); simpl.
  - lia.
  - pose proof (filter_length_le
                  (fun x => negb (keep (op_id x)))
                  (flat_map walkRegion xregions)). lia.
Qed.

Lemma walkKept_nested_sub keep o x :
  In x (flat_map (walkKeptRegion keep) (op_regions o)) ->
  In x (nestedOps o).
Proof.
  revert x. induction o as [o IH] using Operation_tree_ind.
  intros x Hx. unfold nestedOps.
  apply in_flat_map in Hx as (r & Hr & Hx).
  apply in_flat_map. exists r. split; [done|].
  rewrite Forall_forall in IH.
  specialize (IH r (proj2 (list_elem_of_In _ _) Hr)).
  destruct r as [bs]; simpl in *.
  apply in_flat_map in Hx as (b & Hb & Hx).
  apply in_flat_map. exists b. split; [done|].
  rewrite Forall_forall in IH.
  specialize (IH b (proj2 (list_elem_of_In _ _) Hb)).
  destruct b as [bid args ops]; simpl in *.
  apply in_flat_map in Hx as (y & Hy & Hx).
  apply in_flat_map. exists y. split; [done|].
  rewrite Forall_forall in IH.
  specialize (IH y (proj2 (list_elem_of_In _ _) Hy)).
  destruct (keep (op_id y)); [|done].
  destruct y as [yid yname yoperands yrts yft yregions]; simpl in *.
  destruct Hx as [<- | Hx]; [by left|]. right. by apply IH.
Qed.

Lemma walkKept_sub keep root o :
  In o (walkKept keep root) -> In o (walk root).
Proof.
  intros Ho.
  assert (walkKept keep root
          = root :: flat_map (walkKeptRegion keep) (op_regions root)) as Heq
    by (by destruct root).
  rewrite Heq in Ho. destruct Ho as [<- | Ho].
  - destruct root; simpl; by left.
  - apply walkKept_nested_sub, nestedOps_walk in Ho. exact Ho.
Qed.

Lemma two_members_length {A} (p : A -> bool) (l : list A) (a x : A) :
  In a l -> In x l -> a ≠ x -> p a = true -> p x = true ->
  2 <= length (List.filter p l).
Proof.
  intros Ha Hx Hne Hpa Hpx.
  assert (In a (List.filter p l)) as Ha' by (by apply filter_In).
  assert (In x (List.filter p l)) as Hx' by (by apply filter_In).
  destruct (in_split _ _ Ha') as (l1 & l2 & Heq). rewrite Heq in Hx' |- *.
  rewrite length_app. simpl.
  apply in_app_or in Hx' as [Hx' | [Hx' | Hx']]; [|done|].
  - destruct l1; [done|]. simpl. lia.
  - destruct l2; [done|]. simpl. lia.
Qed.

(** X12: when the erasure fires, every operation that is neither the
    store nor the operation defining its destination, nor nested in one of
    them, and that does not use the destination, is still in the module
    verbatim; uses of block arguments and of other results are never
    rewired. *)
Theorem unranked_store_rewrite_leaves_the_rest
    (op : Operation) (operands : list Value) (root : Operation)
    (src dst : Value) (A : OpId) (k : nat) (a s : Operation) :
  op_operands op !! 0 = Some src ->
  op_operands op !! 1 = Some dst ->
  val_def dst = OpResult A k ->
  lookupOp A root = Some a ->
  length (op_result_types a) = 1 ->
  lookupOp (op_id op) (eraseOps (fun i => bool_decide (i ≠ A)) root)
    = Some s ->
  op_result_types s = [] ->
  exists root',
    UnrankedTensorStoreTestOnlyPattern.matchAndRewrite op operands root
      = Done (success, root') /\
    (forall o,
        In o (walkKept (fun i => bool_decide (i ≠ A) &&
                                 bool_decide (i ≠ op_id op)) root) ->
        (forall v, In v (op_operands o) -> val_def v ≠ OpResult A 0) ->
        remainsVerbatim o root') /\
    (forall o', In o' (walk root') ->
       exists o, In o (walk root) /\
                 op_id o' = op_id o /\ op_name o' = op_name o /\
                 op_result_types o' = op_result_types o /\
                 Forall2 (fun v' v => v' = v \/
                                      (val_def v = OpResult A 0 /\ v' = src))
                         (op_operands o') (op_operands o)).
Proof.
  intros Hsrc Hdst Hdef Ha Hlen Hs Hres.
  exists (storeErased A (op_id op) src root).
  split; [by eapply store_rewrite|].
  pose proof (walk_storeErased A (op_id op) src root) as Hheaders.
  split.
  - intros o Ho Hunused. unfold remainsVerbatim. rewrite Hheaders.
    apply in_map_iff. exists o. split; [|done].
    rewrite opHeader_mapOperands. unfold opHeader. f_equal.
    rewrite <- (map_id (op_operands o)) at 2. apply map_ext_in.
    intros v Hv. unfold replaceUse.
    rewrite bool_decide_eq_false_2; [done|]. by apply Hunused.
  - intros o' Ho'.
    assert (In (opHeader o')
               (map opHeader (walk (storeErased A (op_id op) src root))))
      as Hin by (by apply in_map).
    rewrite Hheaders in Hin. apply in_map_iff in Hin as (o & Heq & Ho).
    exists o. split; [by eapply walkKept_sub|].
    rewrite opHeader_mapOperands in Heq. unfold opHeader in Heq.
    destruct o' as [id' name' operands' rts' ft' regions']; simpl in *.
    injection Heq as -> -> <- -> _.
    repeat split; try done.
    clear. induction (op_operands o) as [|v vs IH]; simpl; constructor;
      [|exact IH].
    unfold replaceUse. case_bool_decide; auto.
Qed.

(** X13: each firing of the erasure takes at least two operations out of
    the module and creates none. *)
Theorem unranked_store_rewrite_shrinks_the_module
    (op : Operation) (operands : list Value) (root : Operation)
    (src dst : Value) (A : OpId) (k : nat) (a s : Operation) :
  op_operands op !! 0 = Some src ->
  op_operands op !! 1 = Some dst ->
  val_def dst = OpResult A k ->
  lookupOp A root = Some a ->
  length (op_result_types a) = 1 ->
  lookupOp (op_id op) (eraseOps (fun i => bool_decide (i ≠ A)) root)
    = Some s ->
  op_result_types s = [] ->
  exists root',
    UnrankedTensorStoreTestOnlyPattern.matchAndRewrite op operands root
      = Done (success, root') /\
    length (walk root') + 2 <= length (walk root).
Proof.
  intros Hsrc Hdst Hdef Ha Hlen Hs Hres.
  exists (storeErased A (op_id op) src root).
  split; [by eapply store_rewrite|].
  pose proof (f_equal (@length _) (walk_storeErased A (op_id op) src root))
    as Hcount.
  rewrite !length_map in Hcount. rewrite Hcount.
  pose proof (walkKept_bound
                (fun i => bool_decide (i ≠ A) && bool_decide (i ≠ op_id op))
                root) as Hbound.
  destruct (lookupOp_In _ _ _ Ha) as [Hain Haid].
  destruct (lookupOp_In _ _ _ Hs) as [Hsin Hsid].
  pose proof (nestedOps_erased_kept _ _ _ Hsin) as Hkept.
  rewrite Hsid in Hkept. apply bool_decide_eq_true in Hkept.
  rewrite nestedOps_eraseOps in Hsin.
  apply in_map_iff in Hsin as (x & Hx & Hxin).
  apply walkKept_nested_sub in Hxin.
  assert (op_id x = op_id op) as Hxid
    by (by rewrite <- Hsid, <- Hx, op_id_eraseOps).
  assert (2 <= length (List.filter
                         (fun y => negb (bool_decide (op_id y ≠ A) &&
                                         bool_decide (op_id y ≠ op_id op)))
                         (nestedOps root))) as Htwo.
  { apply (two_members_length _ _ a x); try done.
    - intros ->. congruence.
    - rewrite Haid. rewrite (bool_decide_eq_false_2 (A ≠ A)); auto.
    - rewrite Hxid. rewrite (bool_decide_eq_false_2 (op_id op ≠ op_id op));
        auto. by rewrite andb_false_r. }
  lia.
Qed.

(** ** The further properties on the examples *)

Lemma return_adaptation_result_legality_witness :
  exists root' new,
    ReturnOpTypeConversionPattern.matchAndRewrite
      Sample.ret [Sample.arg1] Sample.module = Done (success, root') /\
    In new (walk root') /\
    isLegal (Examples.target true) new = Legal.
Proof.
  destruct (return_adaptation_result_legality
              Sample.noPatterns Sample.noPatterns Sample.noPatterns
              Sample.noPatterns Sample.noPatterns Sample.noPatterns
              Sample.shapeLegality Sample.scfLegality
              Sample_shapeLegality_is_local Sample_scfLegality_is_local
              true Sample.ret [Sample.arg1] Sample.module Sample.ret)
    as (root' & new & Hfire & Hin & _ & Hlegal & _); [reflexivity..|].
  exists root', new. split; [exact Hfire|]. split; [exact Hin|].
  apply Hlegal. intros v [<- | []]. reflexivity.
Defined.

Lemma type_checked_kinds_legality_witness :
  isLegal (Examples.target false) Examples.callOnBuffers = Legal /\
  isLegal (Examples.target false) Sample.call = Illegal.
Proof.
  split.
  - apply (type_checked_kinds_legality
             Sample.noPatterns Sample.noPatterns Sample.noPatterns
             Sample.noPatterns Sample.noPatterns Sample.noPatterns
             Sample.shapeLegality Sample.scfLegality
             Sample_shapeLegality_is_local Sample_scfLegality_is_local
             false Examples.callOnBuffers).
    + simpl. tauto.
    + intros t Ht. simpl in Ht.
      repeat (destruct Ht as [<- | Ht]; [reflexivity|]). contradiction.
  - apply (type_checked_kinds_legality
             Sample.noPatterns Sample.noPatterns Sample.noPatterns
             Sample.noPatterns Sample.noPatterns Sample.noPatterns
             Sample.shapeLegality Sample.scfLegality
             Sample_shapeLegality_is_local Sample_scfLegality_is_local
             false Sample.call).
    + simpl. tauto.
    + exists Sample.tensor_f32. split; [simpl; tauto | reflexivity].
Defined.

Lemma mhlo_operations_are_illegal_witness :
  isLegal (Examples.target true) Examples.mhloAdd = Illegal.
Proof.
  apply (mhlo_operations_are_illegal
           Sample.noPatterns Sample.noPatterns Sample.noPatterns
           Sample.noPatterns Sample.noPatterns Sample.noPatterns
           Sample.shapeLegality Sample.scfLegality
           Sample_shapeLegality_is_local Sample_scfLegality_is_local
           true Examples.mhloAdd).
  reflexivity.
Defined.

Lemma tensor_building_kinds_are_illegal_witness :
  isLegal (Examples.target true) Examples.tensorCast = Illegal.
Proof.
  apply (tensor_building_kinds_are_illegal
           Sample.noPatterns Sample.noPatterns Sample.noPatterns
           Sample.noPatterns Sample.noPatterns Sample.noPatterns
           Sample.shapeLegality Sample.scfLegality
           Sample_shapeLegality_is_local Sample_scfLegality_is_local
           true Examples.tensorCast).
  simpl. tauto.
Defined.

Lemma buffer_dialects_are_legal_witness :
  isLegal (Examples.target false) Examples.lmhloCopy = Legal.
Proof.
  apply (buffer_dialects_are_legal
           Sample.noPatterns Sample.noPatterns Sample.noPatterns
           Sample.noPatterns Sample.noPatterns Sample.noPatterns
           Sample.shapeLegality Sample.scfLegality
           Sample_shapeLegality_is_local Sample_scfLegality_is_local
           false Examples.lmhloCopy).
  simpl. tauto.
Defined.

Lemma unnamed_standard_kinds_are_legal_witness :
  isLegal (Examples.target false) Examples.tensorAddf = Legal.
Proof.
  apply (unnamed_standard_kinds_are_legal
           Sample.noPatterns Sample.noPatterns Sample.noPatterns
           Sample.noPatterns Sample.noPatterns Sample.noPatterns
           Sample.shapeLegality Sample.scfLegality
           Sample_shapeLegality_is_local Sample_scfLegality_is_local
           false Examples.tensorAddf).
  - reflexivity.
  - simpl. intuition discriminate.
Defined.

Lemma unregistered_dialects_are_unknown_witness :
  isLegal (Examples.target true) Examples.foreign = Unknown.
Proof.
  apply (unregistered_dialects_are_unknown
           Sample.noPatterns Sample.noPatterns Sample.noPatterns
           Sample.noPatterns Sample.noPatterns Sample.noPatterns
           Sample.shapeLegality Sample.scfLegality
           Sample_shapeLegality_is_local Sample_scfLegality_is_local
           true Examples.foreign).
  - simpl. intuition discriminate.
  - simpl. intuition discriminate.
Defined.

Lemma mode_only_affects_the_bridging_casts_witness :
  isLegal (Examples.target true) Sample.store
  = isLegal (Examples.target false) Sample.store.
Proof.
  apply (mode_only_affects_the_bridging_casts
           Sample.noPatterns Sample.noPatterns Sample.noPatterns
           Sample.noPatterns Sample.noPatterns Sample.noPatterns
           Sample.shapeLegality Sample.scfLegality
           Sample_shapeLegality_is_local Sample_scfLegality_is_local
           Sample.store).
  - discriminate.
  - discriminate.
  - simpl. intuition discriminate.
Defined.

Lemma dependent_dialects_are_legal_witness :
  LmhloDialect ∈ getDependentDialects ∅ /\
  LmhloDialect ∈ legalDialects (configureTarget true BufferizeTypeConverter) /\
  (StandardOpsDialect ∉ getDependentDialects ∅).
Proof.
  pose proof (dependent_dialects_are_legal
                ∅ true BufferizeTypeConverter LmhloDialect) as [_ Hadded].
  pose proof (dependent_dialects_are_legal
                ∅ true BufferizeTypeConverter StandardOpsDialect)
    as [Hspec _].
  destruct Hadded as (Hin & Hlegal & _); [simpl; tauto|].
  split; [exact Hin|]. split; [exact Hlegal|].
  intros Hstd. apply Hspec in Hstd as [Hheld | Hfive].
  - revert Hheld. apply not_elem_of_empty.
  - simpl in Hfive.
    destruct Hfive as [H | [H | [H | [H | [H | []]]]]]; discriminate H.
Defined.

Lemma unranked_store_rewrite_leaves_the_rest_witness :
  exists root',
    UnrankedTensorStoreTestOnlyPattern.matchAndRewrite
      Sample.store [] Sample.module = Done (success, root') /\
    remainsVerbatim Sample.ret root'.
Proof.
  destruct (unranked_store_rewrite_leaves_the_rest
              Sample.store [] Sample.module Sample.arg0 Sample.buf 2 0
              Sample.call Sample.store)
    as (root' & Hfire & Hrest & _); [reflexivity..|].
  exists root'. split; [exact Hfire|]. apply Hrest.
  - vm_compute. tauto.
  - intros v [<- | []]. discriminate.
Defined.

Lemma unranked_store_rewrite_shrinks_the_module_witness :
  exists root',
    UnrankedTensorStoreTestOnlyPattern.matchAndRewrite
      Sample.store [] Sample.module = Done (success, root') /\
    length (walk root') + 2 <= length (walk Sample.module).
Proof.
  apply (unranked_store_rewrite_shrinks_the_module
           Sample.store [] Sample.module Sample.arg0 Sample.buf 2 0
           Sample.call Sample.store); reflexivity.
Defined.

